(** * Batch collation (helpers/training/collate.py)

    A shallow embedding of the collation core of the trainer: the
    conditioning vector ([compute_time_ids]), the concurrent latent fetch
    and its strict shape validation ([compute_latents]), the embedding
    dispatch ([compute_prompt_embeddings]), the conditioning synthesis
    ([gather_conditional_size_features]), the lenient shape check
    ([check_latent_shapes]) and the batch assembler ([collate_fn]).

    Python's effects are written out: exceptions are a [result], and the
    mutable example dictionaries, the global random generator and the
    sequence of log lines, prints and calls to the caches are threaded
    through a [world]. *)

From Stdlib Require Import ZArith QArith Lia.
From stdpp Require Import base list strings functions.

Local Open Scope string_scope.
Local Open Scope nat_scope.

(** ** Values *)

(** A [torch.Tensor]: its [shape] (a [torch.Size]) and its elements in
    row-major order. Rounding to a floating-point dtype is not modelled;
    elements are rationals. *)
Record tensor := mkTensor { shape : list nat; data : list Q }.

(** One example of the batch: the dictionary built by the dataset layer,
    with the keys [collate_fn] reads or writes. [drop_conditioning] is
    absent ([None]) until the dropout loop has run; [original_size] and
    [crop_coordinates] may hold Python's [None]. *)
Record example := mkExample {
  image_path : string;
  data_backend_id : string;
  instance_prompt_text : string;
  original_size : option (list (option Z));
  crop_coordinates : option (list Z);
  drop_conditioning : option bool;
  luminance : Q
}.

Definition set_instance_prompt_text (v : string) (e : example) : example :=
  {| image_path := image_path e;
     data_backend_id := data_backend_id e;
     instance_prompt_text := v;
     original_size := original_size e;
     crop_coordinates := crop_coordinates e;
     drop_conditioning := drop_conditioning e;
     luminance := luminance e |}.

Definition set_drop_conditioning (v : bool) (e : example) : example :=
  {| image_path := image_path e;
     data_backend_id := data_backend_id e;
     instance_prompt_text := instance_prompt_text e;
     original_size := original_size e;
     crop_coordinates := crop_coordinates e;
     drop_conditioning := Some v;
     luminance := luminance e |}.

(** ** Exceptions *)

(** The text of an exception; the three f-strings of the source keep their
    interpolated values as arguments. *)
Inductive message :=
  | Msg (text : string)
  (* f"Cannot continue, the original_size or target_size were not provided: {original_size}, {target_size}" *)
  | MsgSizesNotProvided (original_size : option (list (option Z)))
                        (target_size : option (list Z))
  (* f"File {filepaths[idx]} latent shape mismatch: {latent.shape} != {test_shape}" *)
  | MsgLatentShapeMismatch (filepath : string) (latent_shape test_shape : list nat).

Inductive exn :=
  | Exception (m : message)
  | ValueError (m : message)
  | TypeError (m : message)
  | IndexError (m : message)
  | KeyError (key : string)
  | RuntimeError (m : message)
  | UnboundLocalError (name : string)
  | ZeroDivisionError
  (* whatever a cache raises on a miss or an I/O failure *)
  | CacheError (detail : string).

Inductive result (A : Type) :=
  | Ok (a : A)
  | Raise (e : exn).
Arguments Ok {A} a.
Arguments Raise {A} e.

(** ** The world *)

(** What a run can be observed to do besides returning: every call to the
    logger, every [print], and every call to an external cache. *)
Inductive event :=
  (* debug_log(msg) with a constant text *)
  | Debug (msg : string)
  (* f" -> pull latents for fp {fp} from cache via data backend {data_backend_id}" *)
  | DebugPullLatents (fp backend : string)
  (* f"Computing time ids for: ... original_size ... target_size" *)
  | DebugComputingTimeIds (original_size : list (option Z)) (target_size : list Z)
  (* f"compute_time_ids returning {add_time_ids.shape} shaped time ids: {add_time_ids}" *)
  | DebugTimeIdsReturning (t : tensor)
  (* f"Time ids stacked to {batch_time_ids.shape}: {batch_time_ids}" *)
  | DebugTimeIdsStacked (t : tensor)
  (* print(f"Poop: {prompt_embeds_all}") *)
  | PrintPoop (t : tensor)
  (* print(f"Latent shape mismatch for file: {filepaths[idx]}") *)
  | PrintLatentShapeMismatch (filepath : string)
  (* StateTracker.get_vaecache(id=backend).retrieve_from_cache(fp) *)
  | CallRetrieveFromCache (backend fp : string)
  (* embedcache.compute_embeddings_for_sdxl_prompts(captions) *)
  | CallEmbedSdxl (captions : list string)
  (* embedcache.compute_embeddings_for_legacy_prompts(captions) *)
  | CallEmbedLegacy (captions : list string)
  (* np.random.rand() *)
  | CallRand (draw : Q).

(** [heap] maps an object identity to the example dictionary stored there,
    so that a list of examples may name the same dictionary twice; [rng] is
    the sequence of values [np.random.rand()] is still to return; [trace]
    is the sequence of events so far, oldest first. *)
Record world := mkWorld {
  heap : nat -> example;
  rng : nat -> Q;
  trace : list event
}.

(** ** The monad of effectful Python code

    A statement maps the world to a result and the world it leaves; an
    exception keeps the world as it was when raised. *)
Definition M (A : Type) : Type := world -> result A * world.

Definition ret {A} (a : A) : M A := fun w => (Ok a, w).

Definition raise {A} (e : exn) : M A := fun w => (Raise e, w).

Definition bind {A B} (c : M A) (k : A -> M B) : M B :=
  fun w =>
    match c w with
    | (Ok a, w') => k a w'
    | (Raise e, w') => (Raise e, w')
    end.

Definition lift {A} (r : result A) : M A := fun w => (r, w).

(** Runs [c] and hands its outcome over as a value, as a future does. *)
Definition attempt {A} (c : M A) : M (result A) :=
  fun w => let (r, w') := c w in (Ok r, w').

Notation "'let*' x ':=' c 'in' k" := (bind c (fun x => k))
  (at level 10, x binder, c at level 100, k at level 200,
   format "'[v' 'let*'  x  ':='  c  'in' '/' k ']'").

Notation "c ';;;' k" := (bind c (fun _ => k))
  (at level 100, k at level 200, right associativity,
   format "'[v' c  ';;;' '/' k ']'").

Definition emit (e : event) : M unit :=
  fun w => (Ok tt, {| heap := heap w; rng := rng w; trace := (trace w ++ [e])%list |}).

(** [example[...]] read through its identity. *)
Definition load (obj : nat) : M example := fun w => (Ok (heap w obj), w).

(** [example[key] = v], as the update [f] of the dictionary at [obj]. *)
Definition store (obj : nat) (f : example -> example) : M unit :=
  fun w => (Ok tt, {| heap := <[obj := f (heap w obj)]> (heap w);
                      rng := rng w;
                      trace := trace w |}).

(** [np.random.rand()]: the next value of the generator. *)
Definition np_random_rand : M Q :=
  fun w => (Ok (rng w 0),
            {| heap := heap w;
               rng := fun n => rng w (S n);
               trace := (trace w ++ [CallRand (rng w 0)])%list |}).

Fixpoint mapM {A B} (f : A -> M B) (l : list A) : M (list B) :=
  match l with
  | [] => ret []
  | a :: l' =>
      let* b := f a in
      let* bs := mapM f l' in
      ret (b :: bs)
  end.

(** ** Python and torch primitives *)

(** [l[i]] on a list or tuple. *)
Definition getitem {A} (l : list A) (i : nat) : result A :=
  match l !! i with
  | Some a => Ok a
  | None => Raise (IndexError (Msg "index out of range"))
  end.

Definition Qltb (a b : Q) : bool := negb (Qle_bool b a).

(** [a > b] and [a < b] where one side may be [None]. *)
Definition py_gt (a : option Q) (b : Q) : result bool :=
  match a with
  | Some x => Ok (Qltb b x)
  | None => Raise (TypeError (Msg "'>' not supported between instances of 'NoneType' and 'int'"))
  end.

Definition py_lt (a : Q) (b : option Q) : result bool :=
  match b with
  | Some y => Ok (Qltb a y)
  | None => Raise (TypeError (Msg "'<' not supported between instances of 'float' and 'NoneType'"))
  end.

Definition is_not_None {A} (a : option A) : bool :=
  match a with Some _ => true | None => false end.

(** [sum(l)] and [x / n] on numbers, computed exactly: the rounding of
    floating-point addition and division is not modelled. *)
Definition py_sum (l : list Q) : Q := fold_left Qplus l 0%Q.

Definition py_div (x : Q) (n : nat) : result Q :=
  match n with
  | O => Raise ZeroDivisionError
  | S _ => Ok (x / inject_Z (Z.of_nat n))%Q
  end.

(** [tuple(x)] where [x] may be [None]. *)
Definition py_tuple {A} (x : option (list A)) : result (list A) :=
  match x with
  | Some l => Ok l
  | None => Raise (TypeError (Msg "'NoneType' object is not iterable"))
  end.

(** Number of elements of a tensor of shape [s]. *)
Definition numel (s : list nat) : nat := fold_right Nat.mul 1 s.

(** The [i]-th slice along the leading dimension, unchecked. *)
Definition select (t : tensor) (s : list nat) (i : nat) : tensor :=
  {| shape := s; data := take (numel s) (drop (i * numel s) (data t)) |}.

(** [t[i]]. *)
Definition tensor_getitem (t : tensor) (i : nat) : result tensor :=
  match shape t with
  | [] => Raise (IndexError (Msg "invalid index of a 0-dim tensor"))
  | n :: s =>
      if i <? n then Ok (select t s i)
      else Raise (IndexError (Msg "index out of range"))
  end.

(** [iter(t)]: the slices along the leading dimension. *)
Definition tensor_iter (t : tensor) : result (list tensor) :=
  match shape t with
  | [] => Raise (TypeError (Msg "iteration over a 0-d tensor"))
  | n :: s => Ok (map (select t s) (seq 0 n))
  end.

(** [torch.stack(ts)] (along dimension 0). *)
Definition torch_stack (ts : list tensor) : result tensor :=
  match ts with
  | [] => Raise (RuntimeError (Msg "stack expects a non-empty TensorList"))
  | t :: _ =>
      if forallb (fun t' => bool_decide (shape t' = shape t)) ts
      then Ok {| shape := length ts :: shape t; data := concat (map data ts) |}
      else Raise (RuntimeError (Msg "stack expects each tensor to be equal size"))
  end.

(** [torch.concat([t for _ in range(1)], dim=0)]. *)
Definition torch_concat_1 (t : tensor) : result tensor :=
  match shape t with
  | [] => Raise (RuntimeError (Msg "zero-dimensional tensor cannot be concatenated"))
  | _ :: _ => Ok t
  end.

(** [torch.tensor([row], dtype=weight_dtype)], for a dtype every entry of
    the row can be converted to (as for the floating weight precisions). *)
Definition torch_tensor_row (row : list Z) (weight_dtype : Z -> Q) : tensor :=
  {| shape := [1; length row]; data := map weight_dtype row |}.

(** [torch.zeros_like(t)]. *)
Definition torch_zeros_like (t : tensor) : tensor :=
  {| shape := shape t; data := map (fun _ => 0%Q) (data t) |}.

(** ** The collaborators reached through [StateTracker]

    The caches and the configuration are not part of this module; it only
    calls them. [retrieve_from_cache backend fp] is
    [StateTracker.get_vaecache(id=backend).retrieve_from_cache(fp)];
    [weight_dtype] is the conversion of a Python number to the dtype
    returned by [StateTracker.get_weight_dtype()]. *)
Record StateTracker := mkStateTracker {
  caption_dropout_probability : option Q;
  retrieve_from_cache : string -> string -> result tensor;
  model_type : string;
  compute_embeddings_for_sdxl_prompts : list string -> result (tensor * tensor);
  compute_embeddings_for_legacy_prompts : list string -> result (list tensor);
  weight_dtype : Z -> Q
}.

(** The record returned by [collate_fn]. *)
Record batch_record := mkBatch {
  latent_batch : tensor;
  prompt_embeds : tensor;
  add_text_embeds : option tensor;
  batch_time_ids : option tensor;
  batch_luminance : Q
}.

(** ** The program *)

Definition debug_log (msg : string) : M unit := emit (Debug msg).

Definition default_vae_downscale_factor : Z := 8.

Definition compute_time_ids
    (original_size : option (list (option Z)))
    (target_size : option (list Z))
    (weight_dtype : Z -> Q)
    (vae_downscale_factor : Z)
    (crop_coordinates : option (list Z)) : M tensor :=
  match original_size, target_size with
  | Some osz, Some tsz =>
      emit (DebugComputingTimeIds osz tsz) ;;;
      let* original_width := lift (getitem osz 0) in
      let* original_height := lift (getitem osz 1) in
      let* t2 := lift (getitem tsz 2) in
      let target_width := (t2 * vae_downscale_factor)%Z in
      let* t1 := lift (getitem tsz 1) in
      let target_height := (t1 * vae_downscale_factor)%Z in
      let final_target_size := [target_height; target_width] in
      match original_width with
      | None => raise (ValueError (Msg "Original width must be specified."))
      | Some original_width =>
          match original_height with
          | None => raise (ValueError (Msg "Original height must be specified."))
          | Some original_height =>
              match crop_coordinates with
              | None =>
                  raise (ValueError
                           (Msg "Crop coordinates were not collected during collate."))
              | Some crop =>
                  let add_time_ids :=
                    ([original_height; original_width] ++ crop ++ final_target_size)%list in
                  let add_time_ids := torch_tensor_row add_time_ids weight_dtype in
                  emit (DebugTimeIdsReturning add_time_ids) ;;;
                  ret add_time_ids
              end
          end
      end
  | _, _ => raise (Exception (MsgSizesNotProvided original_size target_size))
  end.

Definition extract_filepaths (examples : list nat) : M (list string) :=
  mapM (fun example => let* e := load example in ret (image_path e)) examples.

Section Collate.

Variable st : StateTracker.

(** The order in which the worker threads of the pool finish their
    tasks, as indices into the submitted tasks. *)
Variable sched : list nat.

(** Worker method to fetch the latent of a single image. Moving the
    latent to pinned host memory does not change its shape or values. *)
Definition fetch_latent (fp : string) (backend : string) : M tensor :=
  emit (DebugPullLatents fp backend) ;;;
  emit (CallRetrieveFromCache backend fp) ;;;
  let* latent := lift (retrieve_from_cache st backend fp) in
  debug_log " -> push latents to GPU via pinned memory" ;;;
  ret latent.

(** *** [ThreadPoolExecutor.map]

    [executor.map(fn, args)] submits one task per argument, in order, and
    yields the results of the futures in that same order. A worker that
    finishes task [i] stores its outcome, value or exception, in future
    [i]; the tasks finish in the order [sched]. An index that names no
    pending future is skipped. *)
Fixpoint run_workers {A B} (fn : A -> M B) (args : list A) (order : list nat)
    (futures : list (option (result B))) : M (list (option (result B))) :=
  match order with
  | [] => ret futures
  | i :: order' =>
      match args !! i, futures !! i with
      | Some a, Some None =>
          let* r := attempt (fn a) in
          run_workers fn args order' (<[i := Some r]> futures)
      | _, _ => run_workers fn args order' futures
      end
  end.

(** The caller reads [future.result()] in submission order: it waits for
    a task that has not finished yet, and an exception stored in a future
    is raised there, the later futures being dropped. *)
Fixpoint collect_results {A B} (fn : A -> M B) (args : list A)
    (futures : list (option (result B))) : M (list B) :=
  match args, futures with
  | a :: args', fut :: futures' =>
      let* b := match fut with
                | Some r => lift r
                | None => fn a
                end in
      let* bs := collect_results fn args' futures' in
      ret (b :: bs)
  | _, _ => ret []
  end.

Definition executor_map {A B} (fn : A -> M B) (args : list A) : M (list B) :=
  let* futures := run_workers fn args sched (replicate (length args) None) in
  collect_results fn args futures.

(** Lines 99-102: the concurrent fetch. *)
Definition fetch_latents (filepaths : list string) (backend : string)
    : M (list tensor) :=
  executor_map (fun '(fp, b) => fetch_latent fp b)
               (zip filepaths (replicate (length filepaths) backend)).

(** Lines 104-110: the strict validation loop, from index [idx] on. *)
Fixpoint validate_shapes (filepaths : list string) (test_shape : list nat)
    (idx : nat) (latents : list tensor) : result unit :=
  match latents with
  | [] => Ok tt
  | latent :: rest =>
      if bool_decide (shape latent <> test_shape) then
        match getitem filepaths idx with
        | Ok fp => Raise (ValueError
                            (MsgLatentShapeMismatch fp (shape latent) test_shape))
        | Raise e => Raise e
        end
      else validate_shapes filepaths test_shape (S idx) rest
  end.

Definition compute_latents (filepaths : list string) (backend : string)
    : M tensor :=
  let* latents := fetch_latents filepaths backend in
  let* first := lift (getitem latents 0) in
  let test_shape := shape first in
  lift (validate_shapes filepaths test_shape 0 latents) ;;;
  debug_log " -> stacking latents" ;;;
  lift (torch_stack latents).

(** The parameter [model_type_arg] (default ["sdxl"]) is not read by the
    source; the variant is the cache's own [model_type]. *)
Definition compute_prompt_embeddings (captions : list string)
    (model_type_arg : string) : M (tensor * option tensor) :=
  debug_log " -> get embed from cache" ;;;
  if String.eqb (model_type st) "sdxl" then
    emit (CallEmbedSdxl captions) ;;;
    let* '(prompt_embeds_all, add_text_embeds_all) :=
      lift (compute_embeddings_for_sdxl_prompts st captions) in
    debug_log " -> concat embeds" ;;;
    let* prompt_embeds_all := lift (torch_concat_1 prompt_embeds_all) in
    let* add_text_embeds_all := lift (torch_concat_1 add_text_embeds_all) in
    ret (prompt_embeds_all, Some add_text_embeds_all)
  else
    debug_log " -> concat embeds" ;;;
    emit (CallEmbedLegacy captions) ;;;
    let* embeds := lift (compute_embeddings_for_legacy_prompts st captions) in
    let* prompt_embeds_all := lift (getitem embeds 0) in
    emit (PrintPoop prompt_embeds_all) ;;;
    let* prompt_embeds_all := lift (torch_concat_1 prompt_embeds_all) in
    ret (prompt_embeds_all, None).

(** The loop of [gather_conditional_size_features], from index [idx]. *)
Fixpoint gather_time_ids (examples : list nat) (latents : tensor)
    (weight_dtype : Z -> Q) (idx : nat) : M (list tensor) :=
  match examples with
  | [] => ret []
  | example :: rest =>
      let* e := load example in
      let* osz := lift (py_tuple (original_size e)) in
      let* latent := lift (tensor_getitem latents idx) in
      let* time_ids :=
        compute_time_ids (Some osz)
                         (Some (map Z.of_nat (shape latent)))
                         weight_dtype
                         default_vae_downscale_factor
                         (crop_coordinates e) in
      let* drop := match drop_conditioning e with
                   | Some b => ret b
                   | None => raise (KeyError "drop_conditioning")
                   end in
      let time_ids := if drop then torch_zeros_like time_ids else time_ids in
      let* batch_time_ids_list := gather_time_ids rest latents weight_dtype (S idx) in
      ret (time_ids :: batch_time_ids_list)
  end.

Definition gather_conditional_size_features (examples : list nat)
    (latents : tensor) (weight_dtype : Z -> Q) : M tensor :=
  let* batch_time_ids_list := gather_time_ids examples latents weight_dtype 0 in
  lift (torch_stack batch_time_ids_list).

(** The loop of [check_latent_shapes] over the slices of [latents]. *)
Fixpoint check_latent_shapes_loop (filepaths : list string)
    (reference_shape : list nat) (idx : nat) (slices : list tensor) : M unit :=
  match slices with
  | [] => ret tt
  | latent :: rest =>
      (if bool_decide (shape latent <> reference_shape) then
         let* fp := lift (getitem filepaths idx) in
         emit (PrintLatentShapeMismatch fp)
       else ret tt) ;;;
      check_latent_shapes_loop filepaths reference_shape (S idx) rest
  end.

Definition check_latent_shapes (latents : tensor) (filepaths : list string)
    : M unit :=
  let* first := lift (tensor_getitem latents 0) in
  let reference_shape := shape first in
  let* slices := lift (tensor_iter latents) in
  check_latent_shapes_loop filepaths reference_shape 0 slices.

(** The dropout loop of [collate_fn]; [backend] is the local variable
    [data_backend_id], unbound ([None]) before the first iteration. *)
Fixpoint dropout_loop (dropout_probability : option Q) (examples : list nat)
    (backend : option string) : M (option string) :=
  match examples with
  | [] => ret backend
  | example :: rest =>
      let* e := load example in
      let backend := Some (data_backend_id e) in
      let* cond :=
        (let* positive := lift (py_gt dropout_probability 0%Q) in
         if negb positive then ret false
         else if negb (is_not_None dropout_probability) then ret false
         else let* draw := np_random_rand in
              lift (py_lt draw dropout_probability)) in
      (if cond then
         store example (set_instance_prompt_text "") ;;;
         store example (set_drop_conditioning true)
       else
         store example (set_drop_conditioning false)) ;;;
      dropout_loop dropout_probability rest backend
  end.

Definition collate_fn (batch : list (list nat)) : M batch_record :=
  if negb (length batch =? 1) then
    raise (ValueError
             (Msg "This trainer is not designed to handle multiple batches in a single collate."))
  else
    debug_log "Begin collate_fn on batch" ;;;
    let dropout_probability := caption_dropout_probability st in
    let* examples := lift (getitem batch 0) in
    let* backend := dropout_loop dropout_probability examples None in
    debug_log "Collect luminance values" ;;;
    let* lums :=
      mapM (fun example => let* e := load example in ret (luminance e)) examples in
    let* batch_luminance := lift (py_div (py_sum lums) (length lums)) in
    debug_log "Extract filepaths" ;;;
    let* filepaths := extract_filepaths examples in
    debug_log "Compute latents" ;;;
    let* backend := match backend with
                    | Some b => ret b
                    | None => raise (UnboundLocalError "data_backend_id")
                    end in
    let* latent_batch := compute_latents filepaths backend in
    debug_log "Check latents" ;;;
    check_latent_shapes latent_batch filepaths ;;;
    debug_log "Extract captions" ;;;
    let* captions :=
      mapM (fun example => let* e := load example in ret (instance_prompt_text e))
           examples in
    debug_log "Pull cached text embeds" ;;;
    let* '(prompt_embeds_all, add_text_embeds_all) :=
      compute_prompt_embeddings captions "sdxl" in
    let* batch_time_ids :=
      match add_text_embeds_all with
      | Some _ =>
          debug_log "Compute and stack SDXL time ids" ;;;
          let* ids := gather_conditional_size_features
                        examples latent_batch (weight_dtype st) in
          emit (DebugTimeIdsStacked ids) ;;;
          ret (Some ids)
      | None => ret None
      end in
    ret {| latent_batch := latent_batch;
           prompt_embeds := prompt_embeds_all;
           add_text_embeds := add_text_embeds_all;
           batch_time_ids := batch_time_ids;
           batch_luminance := batch_luminance |}.

End Collate.

(** ** Vocabulary of the properties *)

(** A tensor holds as many elements as its shape says. *)
Definition well_formed (t : tensor) : Prop := length (data t) = numel (shape t).

(** What [list(map(fn, args))] returns when the outcomes of the calls are
    [rs]: all the values, or the first exception in the order of the
    arguments. *)
Fixpoint sequential_results {A} (rs : list (result A)) : result (list A) :=
  match rs with
  | [] => Ok []
  | Raise e :: _ => Raise e
  | Ok a :: rs' =>
      match sequential_results rs' with
      | Ok l => Ok (a :: l)
      | Raise e => Raise e
      end
  end.

(** The futures of [executor.map] while the workers run: a future is
    pending or holds the outcome [g a] of its task. *)
Definition settled {A B} (g : A -> result B) (args : list A)
    (futures : list (option (result B))) : Prop :=
  Forall2 (fun a fut => fut = None \/ fut = Some (g a)) args futures.

(** The events of the Conditioning Synthesizer: the log lines of
    [compute_time_ids] and the two log lines around the call of
    [gather_conditional_size_features] in [collate_fn]. *)
Definition is_time_ids_event (e : event) : bool :=
  match e with
  | DebugComputingTimeIds _ _ => true
  | DebugTimeIdsReturning _ => true
  | DebugTimeIdsStacked _ => true
  | Debug msg => String.eqb msg "Compute and stack SDXL time ids"
  | _ => false
  end.

(** The diagnostic of the lenient shape check. *)
Definition is_mismatch_print (e : event) : bool :=
  match e with
  | PrintLatentShapeMismatch _ => true
  | _ => false
  end.

(** The events that are neither of the two. *)
Definition benign (e : event) : bool :=
  negb (is_time_ids_event e) && negb (is_mismatch_print e).

Definition not_time_ids_event (e : event) : bool := negb (is_time_ids_event e).

Definition not_mismatch_print (e : event) : bool := negb (is_mismatch_print e).

(** Since the world [w0], only events accepted by [P] have happened. *)
Definition emitted_only (P : event -> bool) (w0 w : world) : Prop :=
  exists evs, trace w = (trace w0 ++ evs)%list /\ Forall (fun e => P e = true) evs.

(** [c] keeps the invariant [I] of the world, whether it returns or
    raises, and a value it returns satisfies [post]. *)
Definition spec {A} (I : world -> Prop) (c : M A) (post : A -> Prop) : Prop :=
  forall w, I w -> I (snd (c w)) /\ forall a, fst (c w) = Ok a -> post a.

(** The fields of an example that [collate_fn] only reads are the same in
    [w] as in [w0], for every example. *)
Definition same_read_only_fields (w0 w : world) : Prop :=
  forall obj,
    image_path (heap w obj) = image_path (heap w0 obj) /\
    data_backend_id (heap w obj) = data_backend_id (heap w0 obj) /\
    original_size (heap w obj) = original_size (heap w0 obj) /\
    crop_coordinates (heap w obj) = crop_coordinates (heap w0 obj) /\
    luminance (heap w obj) = luminance (heap w0 obj).

(** The tracker [st] with another caption-dropout probability. *)
Definition with_caption_dropout_probability (p : option Q) (st : StateTracker)
    : StateTracker :=
  {| caption_dropout_probability := p;
     retrieve_from_cache := retrieve_from_cache st;
     model_type := model_type st;
     compute_embeddings_for_sdxl_prompts := compute_embeddings_for_sdxl_prompts st;
     compute_embeddings_for_legacy_prompts := compute_embeddings_for_legacy_prompts st;
     weight_dtype := weight_dtype st |}.

(** ** A concrete scenario

    Three samples served by backend ["b1"], latents of shape (4, 16, 16),
    original size (512, 512), crop (0, 0). The key ["odd.png"] holds a
    latent of another shape and ["missing.png"] is not in the cache. *)
Definition sample_example (path : string) (lum : Q) : example :=
  {| image_path := path;
     data_backend_id := "b1";
     instance_prompt_text := "a photo";
     original_size := Some [Some 512%Z; Some 512%Z];
     crop_coordinates := Some [0%Z; 0%Z];
     drop_conditioning := None;
     luminance := lum |}.

Definition sample_heap (obj : nat) : example :=
  match obj with
  | 0 => sample_example "a.png" (1 # 5)
  | 1 => sample_example "b.png" (2 # 5)
  | 2 => sample_example "c.png" (3 # 5)
  | 3 => sample_example "odd.png" (1 # 5)
  | _ => sample_example "missing.png" (1 # 5)
  end.

Definition sample_latent (fp : string) : tensor :=
  if String.eqb fp "odd.png"
  then {| shape := [4; 8; 8]; data := replicate 256 (1 # 4)%Q |}
  else {| shape := [4; 16; 16]; data := replicate 1024 (1 # 2)%Q |}.

Definition sample_embeds : tensor :=
  {| shape := [3; 2]; data := replicate 6 (1 # 3)%Q |}.

Definition sample_tracker (p : option Q) (variant : string) : StateTracker :=
  {| caption_dropout_probability := p;
     retrieve_from_cache := fun backend fp =>
       if String.eqb fp "missing.png" then Raise (CacheError fp)
       else Ok (sample_latent fp);
     model_type := variant;
     compute_embeddings_for_sdxl_prompts := fun _ => Ok (sample_embeds, sample_embeds);
     compute_embeddings_for_legacy_prompts := fun _ => Ok [sample_embeds];
     weight_dtype := inject_Z |}.

Definition sample_world : world :=
  {| heap := sample_heap; rng := fun _ => (1 # 2)%Q; trace := [] |}.

(** The scenario after a dropout pass that kept every sample, the stack
    of its three latents and the conditioning tensor it leads to. *)
Definition kept_world : world :=
  {| heap := fun obj => set_drop_conditioning false (sample_heap obj);
     rng := fun _ => (1 # 2)%Q;
     trace := [] |}.

Definition sample_latent_batch : tensor :=
  {| shape := [3; 4; 16; 16]; data := replicate 3072 (1 # 2)%Q |}.

Definition sample_time_ids : tensor :=
  {| shape := [3; 1; 6];
     data := map inject_Z
               [512; 512; 0; 0; 128; 128;
                512; 512; 0; 0; 128; 128;
                512; 512; 0; 0; 128; 128]%Z |}.

(** ** Vocabulary of the further properties *)

(** The cache call an event stands for, if any: backend and key. *)
Definition retrieved (e : event) : option (string * string) :=
  match e with
  | CallRetrieveFromCache backend fp => Some (backend, fp)
  | _ => None
  end.

(** The call to the embedding cache an event stands for, if any: whether
    it is the dual-embedding entry point, and the captions. *)
Definition embed_call (e : event) : option (bool * list string) :=
  match e with
  | CallEmbedSdxl captions => Some (true, captions)
  | CallEmbedLegacy captions => Some (false, captions)
  | _ => None
  end.

(** The world [w] after the events [evs]. *)
Definition add_events (evs : list event) (w : world) : world :=
  {| heap := heap w; rng := rng w; trace := (trace w ++ evs)%list |}.

(** The events of one run of [fetch_latent]. *)
Definition fetch_events (st : StateTracker) (task : string * string) : list event :=
  let '(fp, backend) := task in
  [DebugPullLatents fp backend; CallRetrieveFromCache backend fp] ++
  match retrieve_from_cache st backend fp with
  | Ok _ => [Debug " -> push latents to GPU via pinned memory"]
  | Raise _ => []
  end.

(** The tasks of [executor.map] whose future is still pending. *)
Fixpoint pending {A B} (args : list A) (futures : list (option (result B)))
    : list A :=
  match args, futures with
  | a :: args', None :: futures' => a :: pending args' futures'
  | _ :: args', Some _ :: futures' => pending args' futures'
  | _, _ => []
  end.

(** An example after the dropout loop dropped it, and after it kept it. *)
Definition dropped (e : example) : example :=
  set_drop_conditioning true (set_instance_prompt_text "" e).

Definition kept (e : example) : example := set_drop_conditioning false e.

(** The world after one iteration of the dropout loop on the example
    [obj], when the probability [q] is positive: one draw, then the two
    assignments of a drop or the one assignment of a keep. *)
Definition dropout_step (q : Q) (obj : nat) (w : world) : world :=
  let w1 := snd (np_random_rand w) in
  if Qltb (rng w 0) q
  then snd (store obj (set_drop_conditioning true)
              (snd (store obj (set_instance_prompt_text "") w1)))
  else snd (store obj (set_drop_conditioning false) w1).

(** The scenario with the second sample dropped and the others kept, and
    the conditioning tensor it leads to. *)
Definition mixed_world : world :=
  {| heap := fun obj => if Nat.eqb obj 1 then dropped (sample_heap obj)
                        else kept (sample_heap obj);
     rng := fun _ => (1 # 2)%Q;
     trace := [] |}.

Definition mixed_time_ids : tensor :=
  {| shape := [3; 1; 6];
     data := map inject_Z
               [512; 512; 0; 0; 128; 128;
                0; 0; 0; 0; 0; 0;
                512; 512; 0; 0; 128; 128]%Z |}.

(** A stream of draws that starts below one half and goes on above it. *)
Definition low_then_high_world : world :=
  {| heap := sample_heap;
     rng := fun n => match n with 0 => (1 # 4)%Q | _ => (3 # 4)%Q end;
     trace := [] |}.

(** The record of the scenario when the draws are those of
    [low_then_high_world] and the probability is one half: the first
    sample is dropped, the other two are kept. *)
Definition first_dropped_time_ids : tensor :=
  {| shape := [3; 1; 6];
     data := map inject_Z
               [0; 0; 0; 0; 0; 0;
                512; 512; 0; 0; 128; 128;
                512; 512; 0; 0; 128; 128]%Z |}.

Definition sample_record : batch_record :=
  {| latent_batch := sample_latent_batch;
     prompt_embeds := sample_embeds;
     add_text_embeds := Some sample_embeds;
     batch_time_ids := Some first_dropped_time_ids;
     batch_luminance := (150 # 375)%Q |}.

(** ** Running a statement *)

Lemma fst_bind {A B} (c : M A) (k : A -> M B) (w : world) :
  fst (bind c k w) =
  match fst (c w) with
  | Ok a => fst (k a (snd (c w)))
  | Raise e => Raise e
  end.
Proof. unfold bind. destruct (c w) as [[a|e] w']; reflexivity. Qed.

Lemma snd_bind {A B} (c : M A) (k : A -> M B) (w : world) :
  snd (bind c k w) =
  match fst (c w) with
  | Ok a => snd (k a (snd (c w)))
  | Raise e => snd (c w)
  end.
Proof. unfold bind. destruct (c w) as [[a|e] w']; reflexivity. Qed.

Lemma fst_attempt {A} (c : M A) (w : world) : fst (attempt c w) = Ok (fst (c w)).
Proof. unfold attempt. destruct (c w); reflexivity. Qed.

Lemma snd_attempt {A} (c : M A) (w : world) : snd (attempt c w) = snd (c w).
Proof. unfold attempt. destruct (c w); reflexivity. Qed.

(** ** Tensors: stacking and indexing *)

Lemma take_drop_concat (k i : nat) (ls : list (list Q)) (l : list Q) :
  Forall (fun l' => length l' = k) ls ->
  ls !! i = Some l ->
  take k (drop (i * k) (concat ls)) = l.
Proof.
  intros Hall. revert i. induction Hall as [|l0 ls Hl0 Hall IH]; intros i Hi.
  - discriminate.
  - destruct i as [|i]; simpl in *.
    + injection Hi as <-. rewrite drop_0. apply take_app_length'. auto.
    + rewrite drop_app_add' by auto. auto.
Qed.

Lemma torch_stack_Ok (ts : list tensor) (T : tensor) :
  torch_stack ts = Ok T ->
  exists t0, ts !! 0 = Some t0 /\
             Forall (fun t => shape t = shape t0) ts /\
             T = {| shape := length ts :: shape t0; data := concat (map data ts) |}.
Proof.
  unfold torch_stack. destruct ts as [|t0 ts']; [discriminate|].
  destruct (forallb _ _) eqn:E; [|discriminate].
  intros [= <-]. exists t0. split; [reflexivity|]. split; [|reflexivity].
  apply Forall_lookup. intros i t Ht.
  rewrite forallb_forall in E.
  apply list_elem_of_lookup_2, list_elem_of_In in Ht.
  specialize (E t Ht).
  apply bool_decide_eq_true in E. exact E.
Qed.

(** Indexing a stacked tensor gives back the tensor that was stacked. *)
Lemma tensor_getitem_stack (ts : list tensor) (T t : tensor) (i : nat) :
  torch_stack ts = Ok T ->
  Forall well_formed ts ->
  ts !! i = Some t ->
  tensor_getitem T i = Ok t.
Proof.
  intros HT Hwf Hi.
  destruct (torch_stack_Ok _ _ HT) as (t0 & H0 & Hshape & ->).
  unfold tensor_getitem. simpl.
  assert (Hlt : i < length ts) by (eapply lookup_lt_Some; eauto).
  apply Nat.ltb_lt in Hlt. rewrite Hlt. f_equal.
  unfold select. simpl.
  assert (Hst : shape t = shape t0).
  { eapply (Forall_lookup_1 _ _ _ _ Hshape Hi). }
  rewrite (take_drop_concat (numel (shape t0)) i (map data ts) (data t)).
  - rewrite <- Hst. destruct t; reflexivity.
  - apply Forall_lookup. intros j d Hj.
    rewrite list_lookup_fmap in Hj.
    destruct (ts !! j) as [tj|] eqn:Etj; [|discriminate].
    injection Hj as <-.
    rewrite <- (Forall_lookup_1 _ _ _ _ Hshape Etj).
    exact (Forall_lookup_1 _ _ _ _ Hwf Etj).
  - rewrite list_lookup_fmap. rewrite Hi. reflexivity.
Qed.

(** Every slice of a tensor has the shape of its first slice. *)
Lemma tensor_iter_shapes (t first : tensor) (slices : list tensor) :
  tensor_getitem t 0 = Ok first ->
  tensor_iter t = Ok slices ->
  Forall (fun s => shape s = shape first) slices.
Proof.
  unfold tensor_getitem, tensor_iter. destruct (shape t) as [|n s]; [discriminate|].
  destruct (0 <? n); [|discriminate].
  intros [= <-] [= <-]. apply Forall_lookup. intros i x Hx.
  rewrite list_lookup_fmap in Hx.
  destruct (seq 0 n !! i); [|discriminate]. injection Hx as <-. reflexivity.
Qed.

(** ** The executor: results come back in submission order *)

Section Executor.

Context {A B : Type} (fn : A -> M B) (g : A -> result B).

(** The outcome of a task does not depend on when it runs. *)
Hypothesis fn_result : forall a w, fst (fn a w) = g a.

Lemma settled_pending (args : list A) :
  settled g args (replicate (length args) None).
Proof.
  unfold settled. induction args as [|a args IH]; simpl.
  - constructor.
  - constructor; [left; reflexivity | exact IH].
Qed.

Lemma run_workers_settled (order : list nat) :
  forall (args : list A) futures w,
    settled g args futures ->
    exists futures',
      fst (run_workers fn args order futures w) = Ok futures' /\
      settled g args futures'.
Proof.
  induction order as [|i order IH]; intros args futures w Hs; simpl.
  - exists futures. split; [reflexivity | exact Hs].
  - destruct (args !! i) as [a|] eqn:Ea; [|apply IH; exact Hs].
    destruct (futures !! i) as [[r|]|] eqn:Ef; try (apply IH; exact Hs).
    rewrite fst_bind, fst_attempt, snd_attempt.
    apply IH. unfold settled in *.
    rewrite <- (list_insert_id args i a Ea).
    apply Forall2_insert; [exact Hs|]. right. rewrite fn_result. reflexivity.
Qed.

Lemma collect_results_settled (args : list A) :
  forall futures w,
    settled g args futures ->
    fst (collect_results fn args futures w) = sequential_results (map g args).
Proof.
  induction args as [|a args IH]; intros futures w Hs.
  - reflexivity.
  - inversion Hs as [|a' fut args' futures' Hfut Hrest]; subst. simpl.
    rewrite fst_bind.
    assert (Hb : fst ((match fut with Some r => lift r | None => fn a end) w) = g a).
    { destruct Hfut as [-> | ->]; [apply fn_result | reflexivity]. }
    rewrite Hb. destruct (g a) as [b|e]; [|reflexivity].
    rewrite fst_bind, (IH _ _ Hrest).
    destruct (sequential_results (map g args)); reflexivity.
Qed.

Lemma executor_map_result (sched : list nat) (args : list A) (w : world) :
  fst (executor_map sched fn args w) = sequential_results (map g args).
Proof.
  unfold executor_map. rewrite fst_bind.
  destruct (run_workers_settled sched args _ w (settled_pending args))
    as (futures' & -> & Hs).
  apply collect_results_settled. exact Hs.
Qed.

End Executor.

Lemma sequential_results_Ok {A B} (g : A -> result B) (f : A -> B) (l : list A) :
  (forall a, a ∈ l -> g a = Ok (f a)) ->
  sequential_results (map g l) = Ok (map f l).
Proof.
  induction l as [|a l IH]; intros H; simpl.
  - reflexivity.
  - rewrite (H a) by apply list_elem_of_here.
    rewrite IH; [reflexivity|].
    intros a' Ha'. apply H. apply list_elem_of_further. exact Ha'.
Qed.

Lemma fst_fetch_latent (st : StateTracker) (fp backend : string) (w : world) :
  fst (fetch_latent st fp backend w) = retrieve_from_cache st backend fp.
Proof.
  unfold fetch_latent, debug_log, emit, lift, bind, ret. simpl.
  destruct (retrieve_from_cache st backend fp); reflexivity.
Qed.

Lemma zip_replicate_r {A B} (l : list A) (b : B) :
  zip l (replicate (length l) b) = map (fun a => (a, b)) l.
Proof. induction l as [|a l IH]; simpl; [reflexivity | rewrite IH; reflexivity]. Qed.

Lemma fst_fetch_latents (st : StateTracker) (sched : list nat)
    (filepaths : list string) (backend : string) (w : world) :
  fst (fetch_latents st sched filepaths backend w) =
  sequential_results (map (retrieve_from_cache st backend) filepaths).
Proof.
  unfold fetch_latents.
  rewrite (executor_map_result _ (fun '(fp, b) => retrieve_from_cache st b fp)).
  - rewrite zip_replicate_r, map_map. reflexivity.
  - intros [fp b] w'. apply fst_fetch_latent.
Qed.

(** C7. For every ordered sequence of cache keys and every order in which
    the worker threads finish, [fetch_latents] returns what a sequential
    [map] over the keys returns; when every key is in the cache, that is
    the list of the latents of the keys, in the order of the keys (same
    length, the [i]-th latent is the one fetched for the [i]-th key). *)
Theorem fetch_latents_keeps_input_order
    (st : StateTracker) (sched : list nat) (filepaths : list string)
    (backend : string) (w : world) :
  fst (fetch_latents st sched filepaths backend w) =
    sequential_results (map (retrieve_from_cache st backend) filepaths) /\
  forall lat : string -> tensor,
    (forall fp, fp ∈ filepaths -> retrieve_from_cache st backend fp = Ok (lat fp)) ->
    fst (fetch_latents st sched filepaths backend w) = Ok (map lat filepaths).
Proof.
  split.
  - apply fst_fetch_latents.
  - intros lat Hlat. rewrite fst_fetch_latents.
    apply sequential_results_Ok. exact Hlat.
Qed.

(** ** The strict validator *)

Lemma validate_shapes_Ok (filepaths : list string) (test_shape : list nat)
    (latents : list tensor) :
  forall idx,
    validate_shapes filepaths test_shape idx latents = Ok tt ->
    Forall (fun t => shape t = test_shape) latents.
Proof.
  induction latents as [|t latents IH]; intros idx H; simpl in H.
  - constructor.
  - destruct (bool_decide (shape t <> test_shape)) eqn:E.
    + destruct (getitem filepaths idx); discriminate.
    + apply bool_decide_eq_false in E. constructor.
      * destruct (decide (shape t = test_shape)); [assumption | contradiction].
      * eapply IH; eauto.
Qed.

Lemma validate_shapes_Raise (filepaths : list string) (test_shape : list nat)
    (latents : list tensor) :
  forall idx e,
    validate_shapes filepaths test_shape idx latents = Raise e ->
    exists i t,
      latents !! i = Some t /\
      shape t <> test_shape /\
      (forall j t', j < i -> latents !! j = Some t' -> shape t' = test_shape) /\
      match getitem filepaths (idx + i) with
      | Ok fp => e = ValueError (MsgLatentShapeMismatch fp (shape t) test_shape)
      | Raise e' => e = e'
      end.
Proof.
  induction latents as [|t latents IH]; intros idx e H; simpl in H.
  - discriminate.
  - destruct (bool_decide (shape t <> test_shape)) eqn:E.
    + apply bool_decide_eq_true in E. exists 0, t.
      split; [reflexivity|]. split; [exact E|]. split; [intros j t' Hj; lia|].
      rewrite Nat.add_0_r. destruct (getitem filepaths idx); congruence.
    + apply bool_decide_eq_false in E.
      destruct (IH _ _ H) as (i & t' & Hi & Hne & Hbefore & He).
      exists (S i), t'. split; [exact Hi|]. split; [exact Hne|]. split.
      * intros [|j] t'' Hj Hl; simpl in Hl.
        -- injection Hl as <-.
           destruct (decide (shape t = test_shape)); [assumption | contradiction].
        -- eapply Hbefore; [|exact Hl]. lia.
      * replace (idx + S i) with (S idx + i) by lia. exact He.
Qed.

Lemma validate_shapes_all_equal (filepaths : list string) (test_shape : list nat)
    (latents : list tensor) :
  forall idx,
    Forall (fun t => shape t = test_shape) latents ->
    validate_shapes filepaths test_shape idx latents = Ok tt.
Proof.
  induction latents as [|t latents IH]; intros idx H; simpl.
  - reflexivity.
  - inversion H as [|? ? Ht Hrest]; subst.
    rewrite bool_decide_eq_false_2 by (intros Hne; apply Hne; reflexivity).
    apply IH. exact Hrest.
Qed.

Lemma torch_stack_all_equal (t0 : tensor) (ts : list tensor) :
  Forall (fun t => shape t = shape t0) (t0 :: ts) ->
  torch_stack (t0 :: ts) =
  Ok {| shape := length (t0 :: ts) :: shape t0; data := concat (map data (t0 :: ts)) |}.
Proof.
  intros H. unfold torch_stack.
  replace (forallb _ _) with true; [reflexivity|].
  symmetry. apply forallb_forall. intros t Ht.
  apply bool_decide_eq_true. apply list_elem_of_In in Ht.
  destruct (proj1 (list_elem_of_lookup _ _) Ht) as [i Hi].
  exact (Forall_lookup_1 _ _ _ _ H Hi).
Qed.

(** The outcome of [compute_latents] when every key is in the cache. *)
Lemma fst_compute_latents (st : StateTracker) (sched : list nat)
    (fp0 : string) (rest : list string) (backend : string)
    (lat : string -> tensor) (w : world) :
  (forall fp, fp ∈ fp0 :: rest -> retrieve_from_cache st backend fp = Ok (lat fp)) ->
  fst (compute_latents st sched (fp0 :: rest) backend w) =
  match validate_shapes (fp0 :: rest) (shape (lat fp0)) 0 (map lat (fp0 :: rest)) with
  | Ok _ => torch_stack (map lat (fp0 :: rest))
  | Raise e => Raise e
  end.
Proof.
  intros Hlat. unfold compute_latents.
  rewrite fst_bind, fst_fetch_latents, (sequential_results_Ok _ lat _ Hlat).
  generalize (snd (fetch_latents st sched (fp0 :: rest) backend w)). intros w1.
  unfold bind, lift, debug_log, emit, getitem. simpl.
  destruct (bool_decide (shape (lat fp0) <> shape (lat fp0))); [reflexivity|].
  destruct (validate_shapes _ _ _ _) as [[]|e]; reflexivity.
Qed.

Lemma compute_latents_outcome (st : StateTracker) (sched : list nat)
    (fp0 : string) (rest : list string) (backend : string)
    (lat : string -> tensor) (w : world) :
  (forall fp, fp ∈ fp0 :: rest -> retrieve_from_cache st backend fp = Ok (lat fp)) ->
  (Forall (fun fp => shape (lat fp) = shape (lat fp0)) (fp0 :: rest) /\
   fst (compute_latents st sched (fp0 :: rest) backend w) =
   Ok {| shape := length (fp0 :: rest) :: shape (lat fp0);
         data := concat (map (fun fp => data (lat fp)) (fp0 :: rest)) |})
  \/
  (exists i fp,
     (fp0 :: rest) !! i = Some fp /\
     shape (lat fp) <> shape (lat fp0) /\
     (forall j fp', j < i -> (fp0 :: rest) !! j = Some fp' ->
                    shape (lat fp') = shape (lat fp0)) /\
     fst (compute_latents st sched (fp0 :: rest) backend w) =
     Raise (ValueError (MsgLatentShapeMismatch fp (shape (lat fp)) (shape (lat fp0))))).
Proof.
  intros Hlat. rewrite (fst_compute_latents _ _ _ _ _ lat _ Hlat).
  destruct (validate_shapes _ _ _ _) as [[]|e] eqn:E.
  - left. apply validate_shapes_Ok in E.
    assert (Hall : Forall (fun fp => shape (lat fp) = shape (lat fp0)) (fp0 :: rest)).
    { apply Forall_lookup. intros i fp Hi.
      apply (Forall_lookup_1 _ _ i (lat fp) E).
      rewrite list_lookup_fmap, Hi. reflexivity. }
    split; [exact Hall|].
    change (map lat (fp0 :: rest)) with (lat fp0 :: map lat rest).
    rewrite torch_stack_all_equal.
    + simpl. rewrite length_map, map_map. reflexivity.
    + exact E.
  - right. apply validate_shapes_Raise in E.
    destruct E as (i & t & Hi & Hne & Hbefore & He).
    rewrite list_lookup_fmap in Hi.
    destruct ((fp0 :: rest) !! i) as [fp|] eqn:Efp; [|discriminate].
    injection Hi as <-.
    exists i, fp. split; [exact Efp|]. split; [exact Hne|]. split.
    + intros j fp' Hj Hl. apply (Hbefore j (lat fp') Hj).
      rewrite list_lookup_fmap, Hl. reflexivity.
    + unfold getitem in He. rewrite Nat.add_0_l, Efp in He. rewrite He. reflexivity.
Qed.

(** C4. For every non-empty sequence of fetched latents, [compute_latents]
    raises if and only if some latent's shape differs from the shape of the
    first; the exception raised names the key of the first offending latent,
    its shape and the reference shape; and when nothing is raised all the
    latents have the reference shape (and their stack is returned). *)
Theorem compute_latents_strict_validation
    (st : StateTracker) (sched : list nat) (fp0 : string) (rest : list string)
    (backend : string) (lat : string -> tensor) (w : world) :
  let filepaths := fp0 :: rest in
  let test_shape := shape (lat fp0) in
  let outcome := fst (compute_latents st sched filepaths backend w) in
  (forall fp, fp ∈ filepaths -> retrieve_from_cache st backend fp = Ok (lat fp)) ->
  ((exists e, outcome = Raise e) <->
   (exists fp, fp ∈ filepaths /\ shape (lat fp) <> test_shape)) /\
  (forall e, outcome = Raise e ->
     exists i fp,
       filepaths !! i = Some fp /\
       shape (lat fp) <> test_shape /\
       (forall j fp', j < i -> filepaths !! j = Some fp' ->
                      shape (lat fp') = test_shape) /\
       e = ValueError (MsgLatentShapeMismatch fp (shape (lat fp)) test_shape)) /\
  (forall T, outcome = Ok T ->
     Forall (fun fp => shape (lat fp) = test_shape) filepaths /\
     T = {| shape := length filepaths :: test_shape;
            data := concat (map (fun fp => data (lat fp)) filepaths) |}).
Proof.
  intros filepaths test_shape outcome Hlat.
  subst filepaths test_shape outcome.
  destruct (compute_latents_outcome st sched fp0 rest backend lat w Hlat)
    as [[Hall Hok] | (i & fp & Hi & Hne & Hbefore & Herr)].
  - split; [|split].
    + split.
      * intros [e He]. congruence.
      * intros (fp & Hfp & Hne). exfalso. apply Hne.
        destruct (proj1 (list_elem_of_lookup _ _) Hfp) as [i Hi].
        exact (Forall_lookup_1 _ _ _ _ Hall Hi).
    + intros e He. congruence.
    + intros T HT. split; [exact Hall | congruence].
  - split; [|split].
    + split.
      * intros _. exists fp. split; [|exact Hne].
        eapply list_elem_of_lookup_2; eauto.
      * intros _. eexists; eauto.
    + intros e He. exists i, fp. repeat split; try assumption. congruence.
    + intros T HT. congruence.
Qed.

(** ** Invariants of the world *)

Section SpecRules.

Variable I : world -> Prop.

Lemma spec_ret {A} (a : A) (post : A -> Prop) : post a -> spec I (ret a) post.
Proof. intros Ha w Hw. split; [exact Hw|]. simpl. intros a' [= <-]. exact Ha. Qed.

Lemma spec_raise {A} (e : exn) (post : A -> Prop) : spec I (raise e) post.
Proof. intros w Hw. split; [exact Hw|]. simpl. discriminate. Qed.

Lemma spec_lift {A} (r : result A) (post : A -> Prop) :
  (forall a, r = Ok a -> post a) -> spec I (lift r) post.
Proof. intros Hr w Hw. split; [exact Hw|]. simpl. exact Hr. Qed.

Lemma spec_bind {A B} (c : M A) (k : A -> M B) (mid : A -> Prop) (post : B -> Prop) :
  spec I c mid ->
  (forall a, mid a -> spec I (k a) post) ->
  spec I (bind c k) post.
Proof.
  intros Hc Hk w Hw. destruct (Hc w Hw) as [Hw' Ha].
  rewrite fst_bind, snd_bind.
  destruct (fst (c w)) as [a|e].
  - apply Hk; [apply Ha; reflexivity | exact Hw'].
  - split; [exact Hw' | discriminate].
Qed.

Lemma spec_weaken {A} (c : M A) (post post' : A -> Prop) :
  spec I c post -> (forall a, post a -> post' a) -> spec I c post'.
Proof.
  intros Hc Himp w Hw. destruct (Hc w Hw) as [Hw' Ha].
  split; [exact Hw' | intros a Hr; apply Himp, Ha, Hr].
Qed.

(** A value returned under the invariant was returned from a world that
    satisfies it. *)
Lemma spec_self {A} (c : M A) (post : A -> Prop) :
  spec I c post ->
  spec I c (fun a => exists w, I w /\ fst (c w) = Ok a).
Proof.
  intros Hc w Hw. destruct (Hc w Hw) as [Hw' _].
  split; [exact Hw' | intros a Ha; exists w; auto].
Qed.

Lemma spec_load (obj : nat) :
  spec I (load obj) (fun e => exists w, I w /\ e = heap w obj).
Proof.
  intros w Hw. split; [exact Hw|]. simpl. intros e [= <-]. exists w. auto.
Qed.

Lemma spec_attempt {A} (c : M A) (post : A -> Prop) :
  spec I c post -> spec I (attempt c) (fun _ => True).
Proof.
  intros Hc w Hw. rewrite snd_attempt. split; [apply (Hc w Hw) | trivial].
Qed.

Lemma spec_mapM {A B} (f : A -> M B) (post : B -> Prop) (l : list A) :
  (forall a, spec I (f a) post) -> spec I (mapM f l) (Forall post).
Proof.
  intros Hf. induction l as [|a l IH]; simpl.
  - apply spec_ret. constructor.
  - eapply spec_bind; [apply Hf|]. intros b Hb.
    eapply spec_bind; [apply IH|]. intros bs Hbs.
    apply spec_ret. constructor; assumption.
Qed.

End SpecRules.

Section Invariant.

Variables (st : StateTracker) (sched : list nat).
Variables (I : world -> Prop) (P : event -> bool).

(** The invariant survives the events accepted by [P], among them all
    benign ones. *)
Hypothesis I_emit : forall e w, P e = true -> I w -> I (snd (emit e w)).
Hypothesis P_benign : forall e, benign e = true -> P e = true.

Lemma spec_emit (e : event) : P e = true -> spec I (emit e) (fun _ => True).
Proof. intros He w Hw. split; [apply I_emit; assumption | trivial]. Qed.

Lemma spec_seq {A B} (c : M A) (k : A -> M B) (post : B -> Prop) :
  spec I c (fun _ => True) ->
  (forall a, spec I (k a) post) ->
  spec I (bind c k) post.
Proof. intros Hc Hk. eapply spec_bind; [exact Hc | intros a _; apply Hk]. Qed.

Lemma spec_lift_any {A} (r : result A) : spec I (lift r) (fun _ => True).
Proof. apply spec_lift. trivial. Qed.

Lemma spec_load_any (obj : nat) : spec I (load obj) (fun _ => True).
Proof. eapply spec_weaken; [apply spec_load | trivial]. Qed.

Ltac spec_simple :=
  first
    [ apply spec_ret; exact Logic.I
    | apply spec_raise
    | apply spec_lift_any
    | apply spec_load_any
    | apply spec_emit;
      first [ assumption
            | apply P_benign; reflexivity
            | match goal with
              | H : forall e, is_time_ids_event e = true -> P e = true |- _ =>
                  apply H; reflexivity
              end ] ].

Ltac spec_steps :=
  repeat first
    [ spec_simple
    | apply spec_seq; [spec_simple | intros ?] ].

Lemma fetch_latent_spec (fp backend : string) :
  spec I (fetch_latent st fp backend) (fun _ => True).
Proof. unfold fetch_latent, debug_log. spec_steps. Qed.

Lemma run_workers_spec {A B} (fn : A -> M B) (args : list A) (order : list nat) :
  (forall a, spec I (fn a) (fun _ => True)) ->
  forall futures, spec I (run_workers fn args order futures) (fun _ => True).
Proof.
  intros Hfn. induction order as [|i order IH]; intros futures; simpl.
  - spec_steps.
  - destruct (args !! i) as [a|]; [|apply IH].
    destruct (futures !! i) as [[r|]|]; try apply IH.
    apply spec_seq; [eapply spec_attempt; apply Hfn | intros r; apply IH].
Qed.

Lemma collect_results_spec {A B} (fn : A -> M B) (args : list A) :
  (forall a, spec I (fn a) (fun _ => True)) ->
  forall futures, spec I (collect_results fn args futures) (fun _ => True).
Proof.
  intros Hfn. induction args as [|a args IH]; intros futures; simpl.
  - spec_steps.
  - destruct futures as [|fut futures]; [spec_steps|].
    apply spec_seq.
    + destruct fut as [r|]; [apply spec_lift_any | apply Hfn].
    + intros b. apply spec_seq; [apply IH | intros bs; spec_steps].
Qed.

Lemma executor_map_spec {A B} (fn : A -> M B) (args : list A) :
  (forall a, spec I (fn a) (fun _ => True)) ->
  spec I (executor_map sched fn args) (fun _ => True).
Proof.
  intros Hfn. unfold executor_map.
  apply spec_seq; [apply run_workers_spec, Hfn | intros futures].
  apply collect_results_spec, Hfn.
Qed.

Lemma compute_latents_spec (filepaths : list string) (backend : string) :
  spec I (compute_latents st sched filepaths backend) (fun _ => True).
Proof.
  unfold compute_latents, fetch_latents, debug_log.
  apply spec_seq.
  - apply executor_map_spec. intros [fp b]. apply fetch_latent_spec.
  - intros latents. spec_steps.
Qed.

Lemma extract_filepaths_spec (examples : list nat) :
  spec I (extract_filepaths examples) (fun _ => True).
Proof.
  unfold extract_filepaths.
  eapply spec_weaken; [apply (spec_mapM I _ (fun _ => True)) | trivial].
  intros obj. spec_steps.
Qed.

(** Under the single-embedding variant the pooled component is [None]. *)
Lemma compute_prompt_embeddings_spec (captions : list string) (arg : string) :
  spec I (compute_prompt_embeddings st captions arg)
       (fun pq => String.eqb (model_type st) "sdxl" = false -> snd pq = None).
Proof.
  unfold compute_prompt_embeddings, debug_log.
  apply spec_seq; [spec_simple | intros _].
  destruct (String.eqb (model_type st) "sdxl").
  - apply spec_seq; [spec_simple | intros _].
    apply spec_seq; [spec_simple | intros [p q]].
    spec_steps. apply spec_ret. discriminate.
  - spec_steps. apply spec_ret. reflexivity.
Qed.

(** The lenient check never prints: the slices it compares all have the
    shape of the first slice. *)
Lemma check_latent_shapes_loop_silent (filepaths : list string)
    (reference_shape : list nat) (slices : list tensor) :
  Forall (fun s => shape s = reference_shape) slices ->
  forall idx w,
    check_latent_shapes_loop filepaths reference_shape idx slices w = (Ok tt, w).
Proof.
  induction 1 as [|s slices Hs _ IH]; intros idx w; simpl.
  - reflexivity.
  - rewrite bool_decide_eq_false_2 by (intros Hne; apply Hne; exact Hs).
    unfold bind, ret. apply IH.
Qed.

Lemma check_latent_shapes_silent (latents : tensor) (filepaths : list string)
    (w : world) :
  snd (check_latent_shapes latents filepaths w) = w.
Proof.
  unfold check_latent_shapes, bind, lift.
  destruct (tensor_getitem latents 0) as [first|e] eqn:E0; [|reflexivity].
  destruct (tensor_iter latents) as [slices|e] eqn:E1; [|reflexivity].
  rewrite check_latent_shapes_loop_silent; [reflexivity|].
  eapply tensor_iter_shapes; eauto.
Qed.

Lemma check_latent_shapes_spec (latents : tensor) (filepaths : list string) :
  spec I (check_latent_shapes latents filepaths) (fun _ => True).
Proof.
  intros w Hw. rewrite check_latent_shapes_silent. split; [exact Hw | trivial].
Qed.

Section TimeIds.

(** Where the Conditioning Synthesizer runs, [P] accepts its events. *)
Hypothesis P_time_ids : forall e, is_time_ids_event e = true -> P e = true.

Lemma compute_time_ids_spec osz tsz dtype factor crop :
  spec I (compute_time_ids osz tsz dtype factor crop) (fun _ => True).
Proof.
  unfold compute_time_ids.
  destruct osz as [osz|]; [|spec_steps].
  destruct tsz as [tsz|]; [|spec_steps].
  apply spec_seq; [spec_simple | intros _].
  apply spec_seq; [spec_simple | intros [ow|]];
    (apply spec_seq; [spec_simple | intros [oh|]]);
    (apply spec_seq; [spec_simple | intros t2]);
    (apply spec_seq; [spec_simple | intros t1]);
    try solve [spec_steps].
  destruct crop as [crop|]; spec_steps.
Qed.

Lemma gather_time_ids_spec (examples : list nat) (latents : tensor)
    (dtype : Z -> Q) :
  forall idx, spec I (gather_time_ids examples latents dtype idx) (fun _ => True).
Proof.
  induction examples as [|obj examples IH]; intros idx; cbn [gather_time_ids].
  - spec_steps.
  - apply spec_seq; [spec_simple | intros e].
    apply spec_seq; [spec_simple | intros osz].
    apply spec_seq; [spec_simple | intros latent].
    apply spec_seq; [apply compute_time_ids_spec | intros time_ids].
    apply spec_seq.
    + destruct (drop_conditioning e); spec_steps.
    + intros drop. apply spec_seq; [apply IH | intros ts]. spec_steps.
Qed.

Lemma gather_conditional_size_features_spec (examples : list nat)
    (latents : tensor) (dtype : Z -> Q) :
  spec I (gather_conditional_size_features examples latents dtype)
       (fun _ => True).
Proof.
  unfold gather_conditional_size_features.
  apply spec_seq; [apply gather_time_ids_spec | intros ts]. spec_steps.
Qed.

End TimeIds.

Section Dropout.

(** The invariant survives the two assignments of the dropout loop and
    a draw of the random generator. *)
Hypothesis I_store_caption :
  forall obj w, I w -> I (snd (store obj (set_instance_prompt_text "") w)).
Hypothesis I_store_flag :
  forall obj b w, I w -> I (snd (store obj (set_drop_conditioning b) w)).
Hypothesis I_rand : forall w, I w -> I (snd (np_random_rand w)).

Lemma dropout_loop_spec (p : option Q) (examples : list nat) :
  forall backend, spec I (dropout_loop p examples backend) (fun _ => True).
Proof.
  induction examples as [|obj examples IH]; intros backend; simpl.
  - spec_steps.
  - apply spec_seq; [spec_simple | intros e].
    apply spec_seq.
    + apply spec_seq; [spec_simple | intros positive].
      destruct (negb positive); [spec_steps|].
      destruct (negb (is_not_None p)); [spec_steps|].
      apply spec_seq; [|intros draw; spec_steps].
      intros w Hw. split; [apply I_rand; exact Hw | trivial].
    + intros cond. apply spec_seq; [|intros _; apply IH].
      destruct cond.
      * apply spec_seq; [|intros _].
        -- intros w Hw. split; [apply I_store_caption; exact Hw | trivial].
        -- intros w Hw. split; [apply I_store_flag; exact Hw | trivial].
      * intros w Hw. split; [apply I_store_flag; exact Hw | trivial].
Qed.

End Dropout.

(** *** The batch assembler

    Whatever the dropout loop establishes as the invariant is kept by the
    rest of [collate_fn]; the conditioning is absent under the
    single-embedding variant, and otherwise it is what
    [gather_conditional_size_features] returned in a world that satisfies
    the invariant. *)
Section Assembler.

Variable examples : list nat.
Variable Pre : world -> Prop.

Hypothesis dropout_establishes :
  forall w, Pre w ->
    I (snd (dropout_loop (caption_dropout_probability st) examples None
                         (snd (debug_log "Begin collate_fn on batch" w)))).

Hypothesis P_time_ids_sdxl :
  String.eqb (model_type st) "sdxl" = true ->
  forall e, is_time_ids_event e = true -> P e = true.

Lemma collate_fn_spec (w : world) :
  Pre w ->
  I (snd (collate_fn st sched [examples] w)) /\
  forall r, fst (collate_fn st sched [examples] w) = Ok r ->
    (String.eqb (model_type st) "sdxl" = false ->
     add_text_embeds r = None /\ batch_time_ids r = None) /\
    (forall ids, batch_time_ids r = Some ids ->
       exists w',
         I w' /\
         fst (gather_conditional_size_features
                examples (latent_batch r) (weight_dtype st) w') = Ok ids).
Proof.
  intros HPre. specialize (dropout_establishes w HPre).
  unfold collate_fn. cbn [length Nat.eqb negb].
  match goal with
  | |- context [bind (debug_log ?m) ?k w] =>
      change (bind (debug_log m) k w) with (k tt (snd (debug_log m w)))
  end.
  cbv beta.
  match goal with
  | |- context [bind (lift (getitem [examples] 0)) ?k ?w1] =>
      change (bind (lift (getitem [examples] 0)) k w1) with (k examples w1)
  end.
  cbv beta.
  rewrite fst_bind, snd_bind.
  destruct (fst (dropout_loop _ _ _ _)) as [backend|e];
    [|split; [exact dropout_establishes | discriminate]].
  match goal with
  | |- I (snd (?c ?w1)) /\ (forall r, _ -> @?post r) =>
      cut (spec I c (fun r => post r));
      [intros Hs; exact (Hs w1 dropout_establishes)|]
  end.
  apply spec_seq; [spec_simple | intros _].
  apply spec_seq;
    [eapply spec_weaken;
       [apply (spec_mapM I _ (fun _ => True)); intros obj; spec_steps | trivial]
    | intros lums].
  apply spec_seq; [spec_simple | intros avg].
  apply spec_seq; [spec_simple | intros _].
  apply spec_seq; [apply extract_filepaths_spec | intros filepaths].
  apply spec_seq; [spec_simple | intros _].
  apply spec_seq; [destruct backend; spec_simple | intros backend'].
  apply spec_seq; [apply compute_latents_spec | intros latents].
  apply spec_seq; [spec_simple | intros _].
  apply spec_seq; [apply check_latent_shapes_spec | intros _].
  apply spec_seq; [spec_simple | intros _].
  apply spec_seq;
    [eapply spec_weaken;
       [apply (spec_mapM I _ (fun _ => True)); intros obj; spec_steps | trivial]
    | intros captions].
  apply spec_seq; [spec_simple | intros _].
  eapply spec_bind; [apply compute_prompt_embeddings_spec|].
  intros [prompt pooled] Hpooled. simpl in Hpooled.
  destruct pooled as [pooled|].
  - destruct (String.eqb (model_type st) "sdxl") eqn:Esdxl;
      [|specialize (Hpooled eq_refl); discriminate].
    specialize (P_time_ids_sdxl eq_refl).
    eapply spec_bind.
    + apply spec_seq; [spec_simple | intros _].
      eapply spec_bind;
        [eapply spec_self; apply gather_conditional_size_features_spec;
         exact P_time_ids_sdxl|].
      intros ids Hids.
      apply spec_seq; [spec_simple | intros _].
      apply (spec_ret I (Some ids)
               (fun o => forall ids', o = Some ids' ->
                  exists w', I w' /\
                    fst (gather_conditional_size_features
                           examples latents (weight_dtype st) w') = Ok ids')).
      intros ids' [= <-]. exact Hids.
    + intros o Ho. apply spec_ret. simpl. split; [discriminate | exact Ho].
  - eapply spec_bind;
      [apply (spec_ret I None (fun o => o = None)); reflexivity | intros o ->].
    apply spec_ret. simpl. split; [auto | discriminate].
Qed.

End Assembler.

End Invariant.

(** ** The entry checks of the batch assembler *)

(** C8. Given more than one batch group, [collate_fn] raises the
    [ValueError] of its first statement and leaves the world as it was: no
    example is touched, no random value drawn, no cache called. *)
Theorem collate_fn_rejects_several_batches
    (st : StateTracker) (sched : list nat) (batch : list (list nat)) (w : world) :
  1 < length batch ->
  collate_fn st sched batch w =
  (Raise (ValueError
            (Msg "This trainer is not designed to handle multiple batches in a single collate.")),
   w).
Proof.
  intros Hlen. unfold collate_fn.
  destruct (length batch =? 1) eqn:E.
  - apply Nat.eqb_eq in E. lia.
  - reflexivity.
Qed.

Lemma collate_fn_rejects_several_batches_witness :
  1 < length [[0; 1]; [2]] /\
  collate_fn (sample_tracker (Some 1%Q) "sdxl") [1; 0] [[0; 1]; [2]] sample_world =
  (Raise (ValueError
            (Msg "This trainer is not designed to handle multiple batches in a single collate.")),
   sample_world).
Proof.
  split; [simpl; lia|].
  apply collate_fn_rejects_several_batches. simpl; lia.
Defined.

(** C3. Given one batch group with zero examples, [collate_fn] raises at
    the division of the average luminance ([ZeroDivisionError], the failure
    the specification calls EmptyBatchError): the only events are the two
    log lines before it, so no cache was called, and no example or random
    value was touched. *)
Theorem collate_fn_empty_batch_group
    (st : StateTracker) (sched : list nat) (w : world) :
  collate_fn st sched [[]] w =
  (Raise ZeroDivisionError,
   {| heap := heap w;
      rng := rng w;
      trace := (trace w ++ [Debug "Begin collate_fn on batch";
                            Debug "Collect luminance values"])%list |}).
Proof.
  unfold collate_fn, bind, debug_log, emit, lift, ret. simpl.
  rewrite <- app_assoc. reflexivity.
Qed.

(** C2 (the code departs from it). With the probability [None] and at
    least one example, the comparison [dropout_probability > 0] is
    evaluated before [dropout_probability is not None] and raises a
    [TypeError]: the call does not complete. *)
Theorem collate_fn_None_probability_raises
    (st : StateTracker) (sched : list nat) (obj : nat) (rest : list nat) (w : world) :
  fst (collate_fn (with_caption_dropout_probability None st) sched [obj :: rest] w) =
  Raise (TypeError (Msg "'>' not supported between instances of 'NoneType' and 'int'")).
Proof. reflexivity. Qed.

(** ** Invariants kept by the whole of [collate_fn] *)

Section Preserved.

Variables (st : StateTracker) (sched : list nat).
Variables (I : world -> Prop) (P : event -> bool).

Hypothesis I_emit : forall e w, P e = true -> I w -> I (snd (emit e w)).
Hypothesis P_benign : forall e, benign e = true -> P e = true.
Hypothesis I_store_caption :
  forall obj w, I w -> I (snd (store obj (set_instance_prompt_text "") w)).
Hypothesis I_store_flag :
  forall obj b w, I w -> I (snd (store obj (set_drop_conditioning b) w)).
Hypothesis I_rand : forall w, I w -> I (snd (np_random_rand w)).
Hypothesis P_time_ids_sdxl :
  String.eqb (model_type st) "sdxl" = true ->
  forall e, is_time_ids_event e = true -> P e = true.

Lemma collate_fn_preserves (batch : list (list nat)) (w : world) :
  I w ->
  I (snd (collate_fn st sched batch w)) /\
  forall r, fst (collate_fn st sched batch w) = Ok r ->
    String.eqb (model_type st) "sdxl" = false ->
    add_text_embeds r = None /\ batch_time_ids r = None.
Proof.
  intros Hw.
  destruct batch as [|examples [|second rest]];
    try (split; [exact Hw | discriminate]).
  destruct (collate_fn_spec st sched I P I_emit P_benign examples I) with (w := w)
    as [Hinv Hres].
  - intros w0 Hw0.
    apply (dropout_loop_spec I I_store_caption I_store_flag I_rand).
    apply I_emit; [apply P_benign; reflexivity | exact Hw0].
  - exact P_time_ids_sdxl.
  - exact Hw.
  - split; [exact Hinv|]. intros r Hr. apply (Hres r Hr).
Qed.

End Preserved.

Lemma emitted_only_refl (P : event -> bool) (w : world) : emitted_only P w w.
Proof. exists []. split; [rewrite app_nil_r; reflexivity | constructor]. Qed.

Lemma emitted_only_emit (P : event -> bool) (w0 : world) (e : event) (w : world) :
  P e = true -> emitted_only P w0 w -> emitted_only P w0 (snd (emit e w)).
Proof.
  intros He (evs & Htr & Hall). exists (evs ++ [e])%list. simpl. split.
  - rewrite Htr, app_assoc. reflexivity.
  - apply Forall_app. split; [exact Hall | repeat constructor; exact He].
Qed.

Lemma emitted_only_store (P : event -> bool) (w0 : world) (obj : nat)
    (f : example -> example) (w : world) :
  emitted_only P w0 w -> emitted_only P w0 (snd (store obj f w)).
Proof. intros H. exact H. Qed.

Lemma emitted_only_rand (P : event -> bool) (w0 w : world) :
  (forall q, P (CallRand q) = true) ->
  emitted_only P w0 w -> emitted_only P w0 (snd (np_random_rand w)).
Proof.
  intros HP (evs & Htr & Hall). exists (evs ++ [CallRand (rng w 0)])%list. simpl. split.
  - rewrite Htr, app_assoc. reflexivity.
  - apply Forall_app. split; [exact Hall | repeat constructor; apply HP].
Qed.

Lemma same_read_only_fields_refl (w : world) : same_read_only_fields w w.
Proof. intros obj. repeat split. Qed.

Lemma same_read_only_fields_store (w0 : world) (obj : nat)
    (f : example -> example) (w : world) :
  (forall e,
     image_path (f e) = image_path e /\
     data_backend_id (f e) = data_backend_id e /\
     original_size (f e) = original_size e /\
     crop_coordinates (f e) = crop_coordinates e /\
     luminance (f e) = luminance e) ->
  same_read_only_fields w0 w ->
  same_read_only_fields w0 (snd (store obj f w)).
Proof.
  intros Hf Hw obj'. simpl.
  destruct (decide (obj = obj')) as [<-|Hne].
  - rewrite fn_lookup_insert.
    destruct (Hf (heap w obj)) as (-> & -> & -> & -> & ->). apply Hw.
  - rewrite fn_lookup_insert_ne by exact Hne. apply Hw.
Qed.

(** C9. Whatever [collate_fn] does to the examples, and whether it returns
    or raises, the fields [image_path], [data_backend_id], [original_size],
    [crop_coordinates] and [luminance] of every example are afterwards what
    they were before: only the caption and [drop_conditioning] can have
    changed. *)
Theorem collate_fn_mutates_only_caption_and_flag
    (st : StateTracker) (sched : list nat) (batch : list (list nat)) (w : world) :
  same_read_only_fields w (snd (collate_fn st sched batch w)).
Proof.
  apply (collate_fn_preserves st sched (same_read_only_fields w) (fun _ => true)).
  - intros e w' _ Hw'. exact Hw'.
  - reflexivity.
  - intros obj w'. apply same_read_only_fields_store. intros e. repeat split.
  - intros obj b w'. apply same_read_only_fields_store. intros e. repeat split.
  - intros w' Hw'. exact Hw'.
  - reflexivity.
  - apply same_read_only_fields_refl.
Qed.

(** C10. The lenient check never sees a mismatch: the slices of a tensor
    all have the shape of its first slice, so [check_latent_shapes] leaves
    the world as it found it whatever tensor it is given, and a run of
    [collate_fn] adds no shape-mismatch print to the trace. *)
Theorem check_latent_shapes_never_reports
    (st : StateTracker) (sched : list nat) :
  (forall t first slices,
     tensor_getitem t 0 = Ok first ->
     tensor_iter t = Ok slices ->
     Forall (fun s => shape s = shape first) slices) /\
  (forall latents filepaths w,
     snd (check_latent_shapes latents filepaths w) = w) /\
  (forall batch w,
     emitted_only not_mismatch_print w (snd (collate_fn st sched batch w))).
Proof.
  split; [exact tensor_iter_shapes|].
  split; [exact check_latent_shapes_silent|].
  intros batch w.
  destruct (collate_fn_preserves st sched
              (emitted_only not_mismatch_print w) not_mismatch_print)
    with (batch := batch) (w := w) as [Hinv _].
  - intros e w'. apply emitted_only_emit.
  - intros e He. unfold benign in He. apply andb_prop in He. apply He.
  - intros obj w'. apply emitted_only_store.
  - intros obj b w'. apply emitted_only_store.
  - intros w'. apply emitted_only_rand. reflexivity.
  - intros _ e He. destruct e; try reflexivity; discriminate.
  - apply emitted_only_refl.
  - exact Hinv.
Qed.

(** C6. Under the single-embedding variant (the cache's [model_type] is
    not ["sdxl"]) the dispatcher returns [None] as pooled component, and a
    run of [collate_fn] adds no event of the Conditioning Synthesizer to
    the trace and returns a record whose pooled and conditioning slots are
    [None]. *)
Theorem single_variant_skips_conditioning
    (st : StateTracker) (sched : list nat) :
  model_type st <> "sdxl" ->
  (forall captions arg w prompt pooled,
     fst (compute_prompt_embeddings st captions arg w) = Ok (prompt, pooled) ->
     pooled = None) /\
  (forall batch w,
     emitted_only not_time_ids_event w (snd (collate_fn st sched batch w)) /\
     forall r, fst (collate_fn st sched batch w) = Ok r ->
       add_text_embeds r = None /\ batch_time_ids r = None).
Proof.
  intros Hvariant. apply String.eqb_neq in Hvariant. split.
  - intros captions arg w prompt pooled Hrun.
    destruct (compute_prompt_embeddings_spec st (fun _ => True) (fun _ => true)
                (fun _ _ _ _ => Logic.I) (fun _ _ => eq_refl) captions arg w Logic.I)
      as [_ Hpost].
    exact (Hpost _ Hrun Hvariant).
  - intros batch w.
    destruct (collate_fn_preserves st sched
                (emitted_only not_time_ids_event w) not_time_ids_event)
      with (batch := batch) (w := w) as [Hinv Hres].
    + intros e w'. apply emitted_only_emit.
    + intros e He. unfold benign in He. apply andb_prop in He. apply He.
    + intros obj w'. apply emitted_only_store.
    + intros obj b w'. apply emitted_only_store.
    + intros w'. apply emitted_only_rand. reflexivity.
    + intros Hsdxl. congruence.
    + apply emitted_only_refl.
    + split; [exact Hinv|]. intros r Hr. exact (Hres r Hr Hvariant).
Qed.

(** ** The conditioning vectors *)

Lemma bind_Ok {A B} (c : M A) (k : A -> M B) (w : world) (b : B) :
  fst (bind c k w) = Ok b ->
  exists a, fst (c w) = Ok a /\ fst (k a (snd (c w))) = Ok b.
Proof.
  rewrite fst_bind. destruct (fst (c w)) as [a|e]; [|discriminate].
  intros H. exists a. auto.
Qed.

(** Logging does not touch the examples. *)
Lemma compute_time_ids_heap osz tsz dtype factor crop (w : world) :
  heap (snd (compute_time_ids osz tsz dtype factor crop w)) = heap w.
Proof.
  apply (compute_time_ids_spec (fun w' => heap w' = heap w) (fun _ => true)).
  - intros e w' _ Hw'. exact Hw'.
  - reflexivity.
  - reflexivity.
Qed.

(** What [compute_time_ids] returns, when it returns. *)
Lemma compute_time_ids_Ok osz tsz dtype factor crop (w : world) (t : tensor) :
  fst (compute_time_ids osz tsz dtype factor crop w) = Ok t ->
  exists osize tsize ow oh t1 t2 cr,
    osz = Some osize /\ tsz = Some tsize /\
    osize !! 0 = Some (Some ow) /\
    osize !! 1 = Some (Some oh) /\
    tsize !! 1 = Some t1 /\
    tsize !! 2 = Some t2 /\
    crop = Some cr /\
    t = torch_tensor_row ([oh; ow] ++ cr ++ [t1 * factor; t2 * factor]%Z) dtype.
Proof.
  unfold compute_time_ids.
  destruct osz as [osize|]; [|discriminate].
  destruct tsz as [tsize|]; [|discriminate].
  unfold bind, emit, lift, getitem, raise, ret. simpl.
  destruct (osize !! 0) as [ow|] eqn:E0; [|discriminate].
  destruct (osize !! 1) as [oh|] eqn:E1; [|discriminate].
  destruct (tsize !! 2) as [t2|] eqn:E2; [|discriminate].
  destruct (tsize !! 1) as [t1|] eqn:E3; [|discriminate].
  destruct ow as [ow|]; [|discriminate].
  destruct oh as [oh|]; [|discriminate].
  destruct crop as [cr|]; [|discriminate].
  simpl. intros [= <-].
  exists osize, tsize, ow, oh, t1, t2, cr. repeat split; assumption.
Qed.

(** The entry of the list built by [gather_time_ids] for the example at
    position [i]: the vector of [compute_time_ids] for its sizes, its crop
    and the shape of the [i]-th latent, or zeros if it is dropped. *)
Lemma gather_time_ids_lookup (examples : list nat) (latents : tensor)
    (dtype : Z -> Q) :
  forall idx w ts,
    fst (gather_time_ids examples latents dtype idx w) = Ok ts ->
    length ts = length examples /\
    forall i obj,
      examples !! i = Some obj ->
      exists latent osize ow oh t1 t2 cr drop,
        tensor_getitem latents (idx + i) = Ok latent /\
        List.map Z.of_nat (shape latent) !! 1 = Some t1 /\
        List.map Z.of_nat (shape latent) !! 2 = Some t2 /\
        original_size (heap w obj) = Some osize /\
        osize !! 0 = Some (Some ow) /\
        osize !! 1 = Some (Some oh) /\
        crop_coordinates (heap w obj) = Some cr /\
        drop_conditioning (heap w obj) = Some drop /\
        ts !! i =
        Some (let v := torch_tensor_row
                         ([oh; ow] ++ cr ++
                          [t1 * default_vae_downscale_factor;
                           t2 * default_vae_downscale_factor]%Z) dtype in
              if drop then torch_zeros_like v else v).
Proof.
  induction examples as [|obj0 examples IH]; intros idx w ts H.
  - simpl in H. injection H as <-. split; [reflexivity|]. intros i obj Hi. discriminate.
  - cbn [gather_time_ids] in H.
    apply bind_Ok in H as (e & He & H). cbn [load fst snd] in He, H.
    injection He as <-.
    apply bind_Ok in H as (osz & Hosz & H). cbn [lift fst snd] in Hosz, H.
    apply bind_Ok in H as (latent & Hlatent & H). cbn [lift fst snd] in Hlatent, H.
    apply bind_Ok in H as (time_ids & Htime & H).
    apply bind_Ok in H as (drop & Hdrop & H).
    apply bind_Ok in H as (ts' & Hts' & H).
    cbn [ret fst] in H. injection H as <-.
    set (w1 := snd (compute_time_ids _ _ _ _ _ w)) in *.
    assert (Hheap1 : heap w1 = heap w) by apply compute_time_ids_heap.
    assert (Hflag : drop_conditioning (heap w obj0) = Some drop).
    { destruct (drop_conditioning (heap w obj0)) as [b|]; [|discriminate].
      cbn [ret fst] in Hdrop. congruence. }
    assert (Hw2 : snd ((match drop_conditioning (heap w obj0) with
                        | Some b => ret b
                        | None => raise (KeyError "drop_conditioning")
                        end) w1) = w1).
    { destruct (drop_conditioning (heap w obj0)); reflexivity. }
    rewrite Hw2 in Hts'.
    destruct (IH _ _ _ Hts') as [Hlen Hrest].
    split; [simpl; rewrite Hlen; reflexivity|].
    intros [|i] obj Hi.
    + injection Hi as <-.
      apply compute_time_ids_Ok in Htime
        as (osize & tsize & ow & oh & t1 & t2 & cr
            & [= <-] & [= <-] & H0 & H1 & Ht1 & Ht2 & Hcr & ->).
      exists latent, osz, ow, oh, t1, t2, cr, drop.
      rewrite Nat.add_0_r.
      destruct (original_size (heap w obj0)) as [osz'|] eqn:Eosz;
        [|discriminate].
      cbn [py_tuple] in Hosz. injection Hosz as ->.
      repeat split; assumption.
    + destruct (Hrest i obj Hi)
        as (latent' & osize & ow & oh & t1 & t2 & cr & drop'
            & Hl & Ht1 & Ht2 & Ho & H0 & H1 & Hcr & Hd & Hlook).
      exists latent', osize, ow, oh, t1, t2, cr, drop'.
      replace (idx + S i) with (S idx + i) by lia.
      rewrite Hheap1 in Ho, Hcr, Hd.
      repeat split; assumption.
Qed.

Lemma well_formed_time_ids (row : list Z) (dtype : Z -> Q) (drop : bool) :
  well_formed (let v := torch_tensor_row row dtype in
               if drop then torch_zeros_like v else v).
Proof.
  unfold well_formed, torch_tensor_row, torch_zeros_like, numel.
  destruct drop; simpl; rewrite ?length_map; lia.
Qed.

Lemma gather_time_ids_well_formed (examples : list nat) (latents : tensor)
    (dtype : Z -> Q) (idx : nat) (w : world) (ts : list tensor) :
  fst (gather_time_ids examples latents dtype idx w) = Ok ts ->
  Forall well_formed ts.
Proof.
  intros H. destruct (gather_time_ids_lookup _ _ _ _ _ _ H) as [Hlen Hall].
  apply Forall_lookup. intros i t Hi.
  assert (Hlt : i < length examples).
  { rewrite <- Hlen. eapply lookup_lt_Some; eauto. }
  destruct (lookup_lt_is_Some_2 _ _ Hlt) as [obj Hobj].
  destruct (Hall i obj Hobj)
    as (latent & osize & ow & oh & t1 & t2 & cr & drop & _ & _ & _ & _ & _ & _ & _ & _ & Ht).
  rewrite Hi in Ht. injection Ht as ->. apply well_formed_time_ids.
Qed.

(** C1. For every sample that is not dropped, the conditioning vector is
    (original height, original width, crop top, crop left, latent height
    times the downscale factor, latent width times the downscale factor),
    in the configured dtype: as returned by [compute_time_ids], where the
    original size comes as (width, height) and the latent shape as
    (channels, height, width), and as the slice of that sample in the
    tensor returned by [gather_conditional_size_features], where the factor
    is 8. With original size (512, 512), crop (0, 0), latent dimensions
    (16, 16) and factor 8 it is (512, 512, 0, 0, 128, 128). *)
Theorem conditioning_vector_is_h_w_ordered :
  (forall dtype factor ow oh ct cl c h wd w,
     fst (compute_time_ids (Some [Some ow; Some oh]) (Some [c; h; wd])
                           dtype factor (Some [ct; cl]) w) =
     Ok {| shape := [1; 6];
           data := map dtype [oh; ow; ct; cl; h * factor; wd * factor]%Z |}) /\
  (forall examples latents dtype w ids i obj ow oh ct cl n c h wd,
     fst (gather_conditional_size_features examples latents dtype w) = Ok ids ->
     examples !! i = Some obj ->
     original_size (heap w obj) = Some [Some ow; Some oh] ->
     crop_coordinates (heap w obj) = Some [ct; cl] ->
     drop_conditioning (heap w obj) = Some false ->
     shape latents = [n; c; h; wd] ->
     tensor_getitem ids i =
     Ok {| shape := [1; 6];
           data := map dtype [oh; ow; ct; cl;
                              Z.of_nat h * 8; Z.of_nat wd * 8]%Z |}) /\
  (forall dtype w,
     fst (compute_time_ids (Some [Some 512; Some 512]%Z) (Some [4; 16; 16]%Z)
                           dtype 8%Z (Some [0; 0]%Z) w) =
     Ok {| shape := [1; 6];
           data := map dtype [512; 512; 0; 0; 128; 128]%Z |}).
Proof.
  split; [|split].
  - reflexivity.
  - intros examples latents dtype w ids i obj ow oh ct cl n c h wd
           Hrun Hi Hosize Hcrop Hdrop Hshape.
    unfold gather_conditional_size_features in Hrun.
    apply bind_Ok in Hrun as (ts & Hts & Hstack). cbn [lift fst] in Hstack.
    destruct (gather_time_ids_lookup _ _ _ _ _ _ Hts) as [Hlen Hall].
    destruct (Hall i obj Hi)
      as (latent & osize & ow' & oh' & t1 & t2 & cr & drop
          & Hlatent & Ht1 & Ht2 & Ho & H0 & H1 & Hcr & Hd & Hlook).
    rewrite Hosize in Ho. injection Ho as <-.
    rewrite Hcrop in Hcr. injection Hcr as <-.
    rewrite Hdrop in Hd. injection Hd as <-.
    cbn in H0, H1. injection H0 as <-. injection H1 as <-.
    unfold tensor_getitem in Hlatent. rewrite Hshape in Hlatent.
    destruct (0 + i <? n); [|discriminate]. injection Hlatent as <-.
    cbn in Ht1, Ht2. injection Ht1 as <-. injection Ht2 as <-.
    rewrite (tensor_getitem_stack ts ids _ i Hstack
               (gather_time_ids_well_formed _ _ _ _ _ _ Hts) Hlook).
    reflexivity.
  - reflexivity.
Qed.

Lemma conditioning_vector_is_h_w_ordered_witness :
  fst (gather_conditional_size_features [0; 1; 2] sample_latent_batch
                                        inject_Z kept_world) = Ok sample_time_ids /\
  tensor_getitem sample_time_ids 1 =
  Ok {| shape := [1; 6];
        data := map inject_Z [512; 512; 0; 0; 128; 128]%Z |}.
Proof.
  assert (Hrun : fst (gather_conditional_size_features
                        [0; 1; 2] sample_latent_batch inject_Z kept_world)
                 = Ok sample_time_ids) by (vm_compute; reflexivity).
  split; [exact Hrun|].
  exact (proj1 (proj2 conditioning_vector_is_h_w_ordered)
           [0; 1; 2] sample_latent_batch inject_Z kept_world sample_time_ids
           1 1 512%Z 512%Z 0%Z 0%Z 3 4 16 16
           Hrun eq_refl eq_refl eq_refl eq_refl eq_refl).
Defined.

(** ** Caption dropout *)

Lemma dropout_loop_cons_never (q : Q) (obj : nat) (rest : list nat)
    (backend : option string) (w : world) :
  Qltb 0 q = false ->
  dropout_loop (Some q) (obj :: rest) backend w =
  dropout_loop (Some q) rest (Some (data_backend_id (heap w obj)))
               (snd (store obj (set_drop_conditioning false) w)).
Proof.
  intros Hq. cbn [dropout_loop]. unfold bind, load, lift, py_gt, ret.
  rewrite Hq. reflexivity.
Qed.

Lemma dropout_loop_cons_always (q : Q) (obj : nat) (rest : list nat)
    (backend : option string) (w : world) :
  Qltb 0 q = true ->
  Qltb (rng w 0) q = true ->
  dropout_loop (Some q) (obj :: rest) backend w =
  dropout_loop (Some q) rest (Some (data_backend_id (heap w obj)))
    (snd (store obj (set_drop_conditioning true)
            (snd (store obj (set_instance_prompt_text "")
                    (snd (np_random_rand w)))))).
Proof.
  intros Hq Hdraw. cbn [dropout_loop].
  unfold bind, load, lift, py_gt, py_lt, ret, np_random_rand.
  rewrite Hq. cbn [negb is_not_None]. rewrite Hdraw. reflexivity.
Qed.

(** With a probability that is not positive the loop sets every flag to
    false and changes nothing else. *)
Lemma dropout_loop_never (q : Q) (examples : list nat) :
  Qltb 0 q = false ->
  forall backend w,
    let w' := snd (dropout_loop (Some q) examples backend w) in
    (forall obj, instance_prompt_text (heap w' obj) = instance_prompt_text (heap w obj)) /\
    (forall obj, obj ∈ examples -> drop_conditioning (heap w' obj) = Some false) /\
    (forall obj, obj ∉ examples -> heap w' obj = heap w obj) /\
    rng w' = rng w /\ trace w' = trace w.
Proof.
  intros Hq. induction examples as [|obj0 examples IH]; intros backend w; cbn zeta.
  - simpl. repeat split; auto. intros obj Hobj. inversion Hobj.
  - rewrite dropout_loop_cons_never by exact Hq.
    set (w1 := snd (store obj0 (set_drop_conditioning false) w)).
    destruct (IH (Some (data_backend_id (heap w obj0))) w1)
      as (Hcap & Hflag & Hother & Hrng & Htrace).
    split; [|split; [|split; [|split]]].
    + intros obj. rewrite Hcap. unfold w1. simpl.
      destruct (decide (obj0 = obj)) as [<-|Hne].
      * rewrite fn_lookup_insert. reflexivity.
      * rewrite fn_lookup_insert_ne by exact Hne. reflexivity.
    + intros obj Hobj.
      destruct (decide (obj ∈ examples)) as [Hin|Hnin]; [apply Hflag, Hin|].
      rewrite (Hother obj Hnin).
      apply elem_of_cons in Hobj. destruct Hobj as [->|Hin]; [|contradiction].
      unfold w1. simpl. rewrite fn_lookup_insert. reflexivity.
    + intros obj Hobj. apply not_elem_of_cons in Hobj. destruct Hobj as [Hne Hnin].
      rewrite (Hother obj Hnin). unfold w1. simpl.
      rewrite fn_lookup_insert_ne by congruence. reflexivity.
    + rewrite Hrng. reflexivity.
    + rewrite Htrace. reflexivity.
Qed.

(** With a probability above every draw the loop clears every caption and
    sets every flag to true. *)
Lemma dropout_loop_always (q : Q) (examples : list nat) :
  Qltb 0 q = true ->
  forall backend w,
    (forall n, Qltb (rng w n) q = true) ->
    let w' := snd (dropout_loop (Some q) examples backend w) in
    (forall obj, obj ∈ examples ->
       instance_prompt_text (heap w' obj) = "" /\
       drop_conditioning (heap w' obj) = Some true) /\
    (forall obj, obj ∉ examples -> heap w' obj = heap w obj).
Proof.
  intros Hq. induction examples as [|obj0 examples IH]; intros backend w Hrng; cbn zeta.
  - simpl. split; [intros obj Hobj; inversion Hobj | auto].
  - rewrite dropout_loop_cons_always by auto.
    set (w1 := snd (store obj0 (set_drop_conditioning true) _)).
    assert (Hrng1 : forall n, Qltb (rng w1 n) q = true).
    { intros n. unfold w1. simpl. apply Hrng. }
    destruct (IH (Some (data_backend_id (heap w obj0))) w1 Hrng1) as (Hin & Hother).
    assert (H0 : instance_prompt_text (heap w1 obj0) = "" /\
                 drop_conditioning (heap w1 obj0) = Some true).
    { unfold w1. simpl. rewrite !fn_lookup_insert. split; reflexivity. }
    split.
    + intros obj Hobj.
      destruct (decide (obj ∈ examples)) as [Hin'|Hnin]; [apply Hin, Hin'|].
      rewrite (Hother obj Hnin).
      apply elem_of_cons in Hobj. destruct Hobj as [->|Hin']; [exact H0 | contradiction].
    + intros obj Hobj. apply not_elem_of_cons in Hobj. destruct Hobj as [Hne Hnin].
      rewrite (Hother obj Hnin). unfold w1. simpl.
      rewrite !fn_lookup_insert_ne by congruence. reflexivity.
Qed.

(** After the dropout loop [collate_fn] no longer writes to the examples,
    and the conditioning tensor it returns was computed from them. *)
Lemma collate_fn_heap (st : StateTracker) (sched : list nat)
    (examples : list nat) (w : world) :
  let w1 := snd (dropout_loop (caption_dropout_probability st) examples None
                              (snd (debug_log "Begin collate_fn on batch" w))) in
  heap (snd (collate_fn st sched [examples] w)) = heap w1 /\
  forall r ids,
    fst (collate_fn st sched [examples] w) = Ok r ->
    batch_time_ids r = Some ids ->
    exists w',
      heap w' = heap w1 /\
      fst (gather_conditional_size_features
             examples (latent_batch r) (weight_dtype st) w') = Ok ids.
Proof.
  intros w1.
  destruct (collate_fn_spec st sched (fun w' => heap w' = heap w1) (fun _ => true))
    with (examples := examples) (Pre := eq w) (w := w) as [Hinv Hres].
  - intros e w' _ Hw'. exact Hw'.
  - reflexivity.
  - intros w0 <-. reflexivity.
  - reflexivity.
  - reflexivity.
  - split; [exact Hinv|]. intros r ids Hr Hids. exact (proj2 (Hres r Hr) ids Hids).
Qed.

Lemma Qltb_lt (a b : Q) : (a < b)%Q -> Qltb a b = true.
Proof.
  intros Hlt. unfold Qltb. apply negb_true_iff.
  destruct (Qle_bool b a) eqn:E; [|reflexivity].
  apply Qle_bool_iff in E. exfalso. exact (Qlt_not_le _ _ Hlt E).
Qed.

Lemma torch_zeros_like_data (t : tensor) :
  Forall (fun x => x = 0%Q) (data (torch_zeros_like t)).
Proof.
  unfold torch_zeros_like. simpl.
  induction (data t) as [|x l IH]; simpl; constructor; auto.
Qed.

(** When every example is flagged, the conditioning tensor is all zeros. *)
Lemma gather_all_dropped_zero (examples : list nat) (latents : tensor)
    (dtype : Z -> Q) (w : world) (ids : tensor) :
  (forall obj, obj ∈ examples -> drop_conditioning (heap w obj) = Some true) ->
  fst (gather_conditional_size_features examples latents dtype w) = Ok ids ->
  Forall (fun x => x = 0%Q) (data ids).
Proof.
  intros Hflags Hrun. unfold gather_conditional_size_features in Hrun.
  apply bind_Ok in Hrun as (ts & Hts & Hstack). cbn [lift fst] in Hstack.
  destruct (torch_stack_Ok _ _ Hstack) as (t0 & _ & _ & ->). simpl.
  destruct (gather_time_ids_lookup _ _ _ _ _ _ Hts) as [Hlen Hall].
  apply Forall_concat. apply Forall_lookup. intros i d Hd.
  rewrite list_lookup_fmap in Hd.
  destruct (ts !! i) as [t|] eqn:Et; [|discriminate]. injection Hd as <-.
  assert (Hlt : i < length examples).
  { rewrite <- Hlen. eapply lookup_lt_Some; eauto. }
  destruct (lookup_lt_is_Some_2 _ _ Hlt) as [obj Hobj].
  destruct (Hall i obj Hobj)
    as (latent & osize & ow & oh & t1 & t2 & cr & drop
        & _ & _ & _ & _ & _ & _ & _ & Hdrop & Ht).
  rewrite (Hflags obj (list_elem_of_lookup_2 _ _ _ Hobj)) in Hdrop.
  injection Hdrop as <-. rewrite Et in Ht. injection Ht as ->.
  cbn zeta. apply torch_zeros_like_data.
Qed.

(** ** The scenario, run *)

Lemma sample_tracker_retrieve (p : option Q) (variant backend fp : string) :
  fp <> "missing.png" ->
  retrieve_from_cache (sample_tracker p variant) backend fp = Ok (sample_latent fp).
Proof.
  intros Hfp. simpl. apply String.eqb_neq in Hfp. rewrite Hfp. reflexivity.
Qed.

Ltac elem_cases H :=
  repeat (apply elem_of_cons in H; destruct H as [H|H]; [subst|]);
  [.. | inversion H].

Lemma fetch_latents_keeps_input_order_witness :
  fst (fetch_latents (sample_tracker (Some 0%Q) "sdxl") [2; 0; 1]
                     ["a.png"; "odd.png"; "c.png"] "b1" sample_world) =
  Ok (map sample_latent ["a.png"; "odd.png"; "c.png"]).
Proof.
  apply (proj2 (fetch_latents_keeps_input_order
                  (sample_tracker (Some 0%Q) "sdxl") [2; 0; 1]
                  ["a.png"; "odd.png"; "c.png"] "b1" sample_world)).
  intros fp Hfp. apply sample_tracker_retrieve.
  elem_cases Hfp; discriminate.
Defined.

Lemma compute_latents_strict_validation_witness :
  (forall fp, fp ∈ ["a.png"; "odd.png"; "c.png"] ->
     retrieve_from_cache (sample_tracker (Some 0%Q) "sdxl") "b1" fp =
     Ok (sample_latent fp)) /\
  forall e,
    fst (compute_latents (sample_tracker (Some 0%Q) "sdxl") [2; 0; 1]
                         ["a.png"; "odd.png"; "c.png"] "b1" sample_world) = Raise e ->
    exists i fp,
      ["a.png"; "odd.png"; "c.png"] !! i = Some fp /\
      shape (sample_latent fp) <> shape (sample_latent "a.png") /\
      (forall j fp', j < i -> ["a.png"; "odd.png"; "c.png"] !! j = Some fp' ->
                     shape (sample_latent fp') = shape (sample_latent "a.png")) /\
      e = ValueError (MsgLatentShapeMismatch fp (shape (sample_latent fp))
                                             (shape (sample_latent "a.png"))).
Proof.
  assert (Hlat : forall fp, fp ∈ ["a.png"; "odd.png"; "c.png"] ->
            retrieve_from_cache (sample_tracker (Some 0%Q) "sdxl") "b1" fp =
            Ok (sample_latent fp)).
  { intros fp Hfp. apply sample_tracker_retrieve. elem_cases Hfp; discriminate. }
  split; [exact Hlat|].
  exact (proj1 (proj2 (compute_latents_strict_validation
                         (sample_tracker (Some 0%Q) "sdxl") [2; 0; 1]
                         "a.png" ["odd.png"; "c.png"] "b1" sample_latent
                         sample_world Hlat))).
Defined.

Lemma single_variant_skips_conditioning_witness :
  model_type (sample_tracker (Some 1%Q) "legacy") <> "sdxl" /\
  exists r,
    fst (collate_fn (sample_tracker (Some 1%Q) "legacy") [2; 0; 1] [[0; 1; 2]]
                    sample_world) = Ok r /\
    add_text_embeds r = None /\ batch_time_ids r = None.
Proof.
  assert (Hvariant : model_type (sample_tracker (Some 1%Q) "legacy") <> "sdxl")
    by discriminate.
  split; [exact Hvariant|].
  eexists. split; [vm_compute; reflexivity|].
  refine (proj2 (proj2 (single_variant_skips_conditioning
                          (sample_tracker (Some 1%Q) "legacy") [2; 0; 1] Hvariant)
                  [[0; 1; 2]] sample_world) _ _).
  vm_compute. reflexivity.
Defined.

Lemma check_latent_shapes_never_reports_witness :
  tensor_getitem sample_latent_batch 0 =
    Ok (select sample_latent_batch [4; 16; 16] 0) /\
  tensor_iter sample_latent_batch =
    Ok (map (select sample_latent_batch [4; 16; 16]) (seq 0 3)) /\
  Forall (fun s => shape s = [4; 16; 16])
         (map (select sample_latent_batch [4; 16; 16]) (seq 0 3)).
Proof.
  split; [reflexivity|]. split; [reflexivity|].
  exact (proj1 (check_latent_shapes_never_reports
                  (sample_tracker (Some 0%Q) "sdxl") [2; 0; 1])
           sample_latent_batch _ _ eq_refl eq_refl).
Defined.

(** * Further properties of the collation code *)

(** ** [compute_time_ids]: when it returns and how it fails *)

(** X1. [compute_time_ids] returns only when both sizes are given, the
    original size has a width and a height that are not [None], the target
    size has at least three entries and the crop coordinates are given;
    the tensor it returns has one row of [length crop + 4] entries: the
    height, the width, the crop, and the second and third entries of the
    target size times the factor, converted to the dtype. *)
Theorem compute_time_ids_returns_only_when
    osz tsz dtype factor crop (w : world) (t : tensor) :
  fst (compute_time_ids osz tsz dtype factor crop w) = Ok t ->
  exists osize tsize ow oh t1 t2 cr,
    osz = Some osize /\ tsz = Some tsize /\
    osize !! 0 = Some (Some ow) /\ osize !! 1 = Some (Some oh) /\
    tsize !! 1 = Some t1 /\ tsize !! 2 = Some t2 /\
    crop = Some cr /\
    t = {| shape := [1; length cr + 4];
           data := map dtype ([oh; ow] ++ cr ++ [t1 * factor; t2 * factor]%Z) |}.
Proof.
  intros H. apply compute_time_ids_Ok in H
    as (osize & tsize & ow & oh & t1 & t2 & cr & -> & -> & H0 & H1 & H2 & H3 & -> & ->).
  exists osize, tsize, ow, oh, t1, t2, cr. repeat split; try assumption.
  unfold torch_tensor_row. f_equal. f_equal. simpl.
  rewrite length_app. simpl. f_equal. lia.
Qed.

(** X2. The failures of [compute_time_ids], in the order the source checks
    them: a missing size raises the generic exception before anything is
    logged; a size that is too short raises [IndexError] even if a width,
    height or crop is missing as well; then a [None] width, a [None] height
    and missing crop coordinates raise their [ValueError], in that order. *)
Theorem compute_time_ids_failures dtype factor (w : world) :
  (forall osz tsz crop,
     osz = None \/ tsz = None ->
     compute_time_ids osz tsz dtype factor crop w =
     (Raise (Exception (MsgSizesNotProvided osz tsz)), w)) /\
  (forall osize tsize crop,
     length osize < 2 \/ length tsize < 3 ->
     exists m,
       fst (compute_time_ids (Some osize) (Some tsize) dtype factor crop w) =
       Raise (IndexError m)) /\
  (forall oh osize tsize crop,
     3 <= length tsize ->
     fst (compute_time_ids (Some (None :: oh :: osize)) (Some tsize)
                           dtype factor crop w) =
     Raise (ValueError (Msg "Original width must be specified."))) /\
  (forall ow osize tsize crop,
     3 <= length tsize ->
     fst (compute_time_ids (Some (Some ow :: None :: osize)) (Some tsize)
                           dtype factor crop w) =
     Raise (ValueError (Msg "Original height must be specified."))) /\
  (forall ow oh osize tsize,
     3 <= length tsize ->
     fst (compute_time_ids (Some (Some ow :: Some oh :: osize)) (Some tsize)
                           dtype factor None w) =
     Raise (ValueError (Msg "Crop coordinates were not collected during collate."))).
Proof.
  split; [|split; [|split; [|split]]].
  - intros osz tsz crop [-> | ->]; [reflexivity|]. destruct osz; reflexivity.
  - intros osize tsize crop Hshort.
    unfold compute_time_ids, bind, emit, lift, getitem, ret. simpl.
    destruct osize as [|a [|b osize]]; simpl; try (eexists; reflexivity).
    destruct tsize as [|x [|y [|z tsize]]]; simpl; try (eexists; reflexivity).
    simpl in Hshort. lia.
  - intros oh osize [|x [|y [|z tsize]]] crop Hlen; simpl in Hlen; try lia.
    reflexivity.
  - intros ow osize [|x [|y [|z tsize]]] crop Hlen; simpl in Hlen; try lia.
    reflexivity.
  - intros ow oh osize [|x [|y [|z tsize]]] Hlen; simpl in Hlen; try lia.
    reflexivity.
Qed.

Lemma compute_time_ids_returns_only_when_witness :
  fst (compute_time_ids (Some [Some 640; Some 480]%Z) (Some [4; 60; 80]%Z)
                        inject_Z 8 (Some [3; 5]%Z) sample_world) =
    Ok {| shape := [1; 6];
          data := map inject_Z [480; 640; 3; 5; 480; 640]%Z |} /\
  exists osize tsize ow oh t1 t2 cr,
    Some [Some 640; Some 480]%Z = Some osize /\ Some [4; 60; 80]%Z = Some tsize /\
    osize !! 0 = Some (Some ow) /\ osize !! 1 = Some (Some oh) /\
    tsize !! 1 = Some t1 /\ tsize !! 2 = Some t2 /\
    Some [3; 5]%Z = Some cr /\
    {| shape := [1; 6]; data := map inject_Z [480; 640; 3; 5; 480; 640]%Z |} =
    {| shape := [1; length cr + 4];
       data := map inject_Z ([oh; ow] ++ cr ++ [t1 * 8; t2 * 8]%Z) |}.
Proof.
  split; [reflexivity|].
  exact (compute_time_ids_returns_only_when
           (Some [Some 640; Some 480]%Z) (Some [4; 60; 80]%Z) inject_Z 8%Z
           (Some [3; 5]%Z) sample_world _ eq_refl).
Defined.

Lemma compute_time_ids_failures_witness :
  (exists m,
     fst (compute_time_ids (Some [None]) (Some [4; 16; 16]%Z) inject_Z 8 None
                           sample_world) = Raise (IndexError m)) /\
  fst (compute_time_ids (Some [None; None]) (Some [4; 16; 16]%Z) inject_Z 8 None
                        sample_world) =
  Raise (ValueError (Msg "Original width must be specified.")).
Proof.
  split.
  - apply (proj1 (proj2 (compute_time_ids_failures inject_Z 8 sample_world))).
    left. simpl. lia.
  - apply (proj1 (proj2 (proj2 (compute_time_ids_failures inject_Z 8 sample_world)))).
    simpl. lia.
Defined.

(** ** [check_latent_shapes]: its outcome *)

(** X3. [check_latent_shapes] returns, having done nothing, exactly when
    the tensor has a first slice; on a 0-dimensional tensor or a tensor
    whose leading dimension is 0 it raises [IndexError]. The file paths it
    is given play no part: any two lists give the same outcome. *)
Theorem check_latent_shapes_outcome (latents : tensor) (filepaths : list string)
    (w : world) :
  (forall n s, shape latents = S n :: s ->
     check_latent_shapes latents filepaths w = (Ok tt, w)) /\
  (shape latents = [] \/ (exists s, shape latents = 0 :: s) ->
     exists m, check_latent_shapes latents filepaths w = (Raise (IndexError m), w)) /\
  (forall filepaths',
     check_latent_shapes latents filepaths' w = check_latent_shapes latents filepaths w).
Proof.
  split; [|split].
  - intros n s Hs. unfold check_latent_shapes, bind, lift, tensor_getitem, tensor_iter.
    rewrite Hs. change (0 <? S n) with true. cbv beta iota.
    apply check_latent_shapes_loop_silent.
    apply Forall_lookup. intros i x Hx. rewrite list_lookup_fmap in Hx.
    destruct (seq 0 (S n) !! i); [|discriminate]. injection Hx as <-. reflexivity.
  - intros [Hs | [s Hs]];
      unfold check_latent_shapes, bind, lift, tensor_getitem; rewrite Hs;
      eexists; reflexivity.
  - intros filepaths'.
    unfold check_latent_shapes, bind, lift.
    destruct (tensor_getitem latents 0) as [first|e] eqn:E0; [|reflexivity].
    destruct (tensor_iter latents) as [slices|e] eqn:E1; [|reflexivity].
    rewrite !check_latent_shapes_loop_silent; try reflexivity;
      eapply tensor_iter_shapes; eauto.
Qed.

Lemma check_latent_shapes_outcome_witness :
  check_latent_shapes sample_latent_batch [] sample_world = (Ok tt, sample_world) /\
  exists m,
    check_latent_shapes {| shape := [0; 4; 16; 16]; data := [] |} ["a.png"] sample_world =
    (Raise (IndexError m), sample_world).
Proof.
  split.
  - exact (proj1 (check_latent_shapes_outcome sample_latent_batch [] sample_world)
             2 [4; 16; 16] eq_refl).
  - apply (proj1 (proj2 (check_latent_shapes_outcome _ _ _))).
    right. exists [4; 16; 16]. reflexivity.
Defined.

(** ** [compute_latents]: how a fetch fails *)

Lemma sequential_results_first_Raise {A} (rs : list (result A)) (i : nat) (e : exn) :
  rs !! i = Some (Raise e) ->
  (forall j r, j < i -> rs !! j = Some r -> exists a, r = Ok a) ->
  sequential_results rs = Raise e.
Proof.
  revert i. induction rs as [|r rs IH]; intros i Hi Hbefore.
  - discriminate.
  - destruct i as [|i]; simpl in Hi.
    + injection Hi as ->. reflexivity.
    + destruct (Hbefore 0 r) as [a ->]; [lia | reflexivity |].
      simpl. rewrite (IH i Hi); [reflexivity|].
      intros j r' Hj Hr'. apply (Hbefore (S j) r'); [lia | exact Hr'].
Qed.

(** X4. Whatever the order in which the workers finish, [compute_latents]
    raises the exception of the first key, in the order of the keys, that
    the cache fails on; and with no key at all it raises [IndexError] at
    [latents[0]]. *)
Theorem compute_latents_fetch_failure
    (st : StateTracker) (sched : list nat) (backend : string) (w : world) :
  (forall filepaths i fp e,
     filepaths !! i = Some fp ->
     retrieve_from_cache st backend fp = Raise e ->
     (forall j fp', j < i -> filepaths !! j = Some fp' ->
                    exists t, retrieve_from_cache st backend fp' = Ok t) ->
     fst (compute_latents st sched filepaths backend w) = Raise e) /\
  (exists m, fst (compute_latents st sched [] backend w) = Raise (IndexError m)).
Proof.
  split.
  - intros filepaths i fp e Hi Hfail Hbefore.
    unfold compute_latents. rewrite fst_bind, fst_fetch_latents.
    rewrite (sequential_results_first_Raise _ i e); [reflexivity | |].
    + rewrite list_lookup_fmap, Hi. simpl. rewrite Hfail. reflexivity.
    + intros j r Hj Hr. rewrite list_lookup_fmap in Hr.
      destruct (filepaths !! j) as [fp'|] eqn:Efp; [|discriminate].
      injection Hr as <-. exact (Hbefore j fp' Hj Efp).
  - unfold compute_latents. rewrite fst_bind, fst_fetch_latents. simpl.
    eexists. reflexivity.
Qed.

Lemma compute_latents_fetch_failure_witness :
  fst (compute_latents (sample_tracker (Some 0%Q) "sdxl") [3; 1; 0; 2]
                       ["a.png"; "missing.png"; "odd.png"; "missing.png"] "b1"
                       sample_world) =
  Raise (CacheError "missing.png").
Proof.
  apply (proj1 (compute_latents_fetch_failure
                  (sample_tracker (Some 0%Q) "sdxl") [3; 1; 0; 2] "b1" sample_world)
           ["a.png"; "missing.png"; "odd.png"; "missing.png"] 1 "missing.png").
  - reflexivity.
  - reflexivity.
  - intros [|j] fp' Hj Hfp'; [|lia]. injection Hfp' as <-. eexists. reflexivity.
Defined.

(** ** The executor: every task runs once *)

Lemma add_events_nil (w : world) : add_events [] w = w.
Proof. unfold add_events. rewrite app_nil_r. destruct w; reflexivity. Qed.

Lemma add_events_app (evs1 evs2 : list event) (w : world) :
  add_events evs2 (add_events evs1 w) = add_events (evs1 ++ evs2) w.
Proof. unfold add_events. simpl. rewrite app_assoc. reflexivity. Qed.

Lemma pending_all {A B} (args : list A) :
  pending args (replicate (length args) (@None (result B))) = args.
Proof. induction args as [|a args IH]; simpl; [reflexivity | rewrite IH; reflexivity]. Qed.

Lemma pending_insert {A B} (args : list A) :
  forall (futures : list (option (result B))) i a r,
    args !! i = Some a ->
    futures !! i = Some None ->
    pending args futures ≡ₚ a :: pending args (<[i := Some r]> futures).
Proof.
  induction args as [|a0 args IH]; intros futures i a r Ha Hf.
  - discriminate.
  - destruct futures as [|fut futures]; [discriminate|].
    destruct i as [|i]; simpl in *.
    + injection Ha as ->. injection Hf as ->. reflexivity.
    + destruct fut as [r0|].
      * apply IH; assumption.
      * rewrite (IH futures i a r Ha Hf). apply Permutation_swap.
Qed.

Section ExecutorTrace.

Context {A B : Type} (fn : A -> M B) (g : A -> result B) (ev : A -> list event).

(** A task returns [g a] and only adds its events [ev a] to the world. *)
Hypothesis fn_run : forall a w, fn a w = (g a, add_events (ev a) w).

Lemma run_workers_trace (args : list A) (order : list nat) :
  forall futures w,
    exists ran futures',
      run_workers fn args order futures w =
        (Ok futures', add_events (concat (map ev ran)) w) /\
      ran ++ pending args futures' ≡ₚ pending args futures.
Proof.
  induction order as [|i order IH]; intros futures w; simpl.
  - exists [], futures. simpl. rewrite add_events_nil. split; reflexivity.
  - destruct (args !! i) as [a|] eqn:Ea; [|apply IH].
    destruct (futures !! i) as [[r|]|] eqn:Ef; try apply IH.
    unfold bind, attempt. rewrite fn_run.
    destruct (IH (<[i := Some (g a)]> futures) (add_events (ev a) w))
      as (ran & futures' & Hrun & Hperm).
    exists (a :: ran), futures'. split.
    + rewrite Hrun, add_events_app. reflexivity.
    + simpl. rewrite Hperm. symmetry. apply pending_insert; assumption.
Qed.

Lemma collect_results_trace (args : list A) :
  (forall a, a ∈ args -> exists b, g a = Ok b) ->
  forall futures w,
    settled g args futures ->
    snd (collect_results fn args futures w) =
    add_events (concat (map ev (pending args futures))) w.
Proof.
  induction args as [|a args IH]; intros Hok futures w Hs.
  - simpl. rewrite add_events_nil. reflexivity.
  - inversion Hs as [|a' fut args' futures' Hfut Hrest]; subst.
    destruct (Hok a (list_elem_of_here _ _)) as [b Hb].
    assert (Hok' : forall a', a' ∈ args -> exists b', g a' = Ok b').
    { intros a' Ha'. apply Hok. apply list_elem_of_further. exact Ha'. }
    cbn [collect_results]. rewrite snd_bind.
    destruct Hfut as [-> | ->].
    + rewrite fn_run. cbn [fst snd]. rewrite Hb.
      rewrite snd_bind.
      destruct (fst (collect_results fn args futures' _)) eqn:E;
        cbn [ret snd]; rewrite (IH Hok' _ _ Hrest), add_events_app; reflexivity.
    + cbn [lift fst snd]. rewrite Hb.
      rewrite snd_bind.
      destruct (fst (collect_results fn args futures' _)) eqn:E;
        cbn [ret snd]; rewrite (IH Hok' _ _ Hrest); reflexivity.
Qed.

Lemma executor_map_trace (sched : list nat) (args : list A) (w : world) :
  (forall a, a ∈ args -> exists b, g a = Ok b) ->
  exists tasks,
    snd (executor_map sched fn args w) = add_events (concat (map ev tasks)) w /\
    tasks ≡ₚ args.
Proof.
  intros Hok. unfold executor_map.
  destruct (run_workers_trace args sched (replicate (length args) None) w)
    as (ran & futures' & Hrun & Hperm).
  assert (Hres : forall a w', fst (fn a w') = g a).
  { intros a w'. rewrite fn_run. reflexivity. }
  destruct (run_workers_settled fn g Hres sched args _ w (settled_pending g args))
    as (futures'' & Hfst & Hs).
  rewrite Hrun in Hfst. injection Hfst as <-.
  exists (ran ++ pending args futures')%list. split.
  - rewrite snd_bind, Hrun. cbn [fst snd].
    rewrite (collect_results_trace args Hok _ _ Hs), add_events_app.
    rewrite map_app, concat_app. reflexivity.
  - rewrite Hperm, pending_all. reflexivity.
Qed.

End ExecutorTrace.

Lemma fetch_latent_run (st : StateTracker) (fp backend : string) (w : world) :
  fetch_latent st fp backend w =
  (retrieve_from_cache st backend fp, add_events (fetch_events st (fp, backend)) w).
Proof.
  unfold fetch_latent, debug_log, emit, lift, bind, ret, add_events, fetch_events.
  simpl. destruct (retrieve_from_cache st backend fp); simpl;
    rewrite <- ?app_assoc; reflexivity.
Qed.

Lemma sequential_results_exists {A B} (g : A -> result B) (l : list A) :
  (forall a, a ∈ l -> exists b, g a = Ok b) ->
  exists bs, sequential_results (map g l) = Ok bs.
Proof.
  induction l as [|a l IH]; intros H; simpl.
  - eexists. reflexivity.
  - destruct (H a (list_elem_of_here _ _)) as [b ->].
    destruct IH as [bs ->].
    + intros a' Ha'. apply H, list_elem_of_further, Ha'.
    + eexists. reflexivity.
Qed.

Lemma omap_retrieved_fetch_events (st : StateTracker) (tasks : list (string * string)) :
  omap retrieved (concat (map (fetch_events st) tasks)) =
  map (fun task => (snd task, fst task)) tasks.
Proof.
  induction tasks as [|[fp b] tasks IH]; [reflexivity|].
  cbn [map concat]. rewrite omap_app, IH. unfold fetch_events.
  destruct (retrieve_from_cache st b fp); reflexivity.
Qed.

(** X5. When the cache holds every key, [compute_latents] asks it for each
    key exactly once, under the backend it was given, whatever the order in
    which the workers finish and whether or not the shapes then agree: the
    cache calls it adds to the trace are a permutation of the keys. It
    changes nothing else of the world. *)
Theorem compute_latents_fetches_each_key_once
    (st : StateTracker) (sched : list nat) (filepaths : list string)
    (backend : string) (w : world) :
  (forall fp, fp ∈ filepaths -> exists t, retrieve_from_cache st backend fp = Ok t) ->
  exists evs,
    snd (compute_latents st sched filepaths backend w) = add_events evs w /\
    omap retrieved evs ≡ₚ map (fun fp => (backend, fp)) filepaths.
Proof.
  intros Hok.
  set (tasks := zip filepaths (replicate (length filepaths) backend)).
  assert (Htasks : tasks = map (fun fp => (fp, backend)) filepaths)
    by apply zip_replicate_r.
  destruct (executor_map_trace
              (fun '(fp, b) => fetch_latent st fp b)
              (fun '(fp, b) => retrieve_from_cache st b fp)
              (fetch_events st)
              (fun '(fp, b) w' => fetch_latent_run st fp b w')
              sched tasks w) as (ran & Hsnd & Hperm).
  { intros [fp b] Hin. rewrite Htasks in Hin.
    apply list_elem_of_fmap in Hin. destruct Hin as (fp' & [= -> ->] & Hfp').
    apply Hok, Hfp'. }
  assert (Hretrieved : omap retrieved (concat (map (fetch_events st) ran)) ≡ₚ
                       map (fun fp => (backend, fp)) filepaths).
  { rewrite omap_retrieved_fetch_events, Hperm, Htasks, map_map. reflexivity. }
  destruct (sequential_results_exists (retrieve_from_cache st backend) filepaths Hok)
    as [latents Hlatents].
  unfold compute_latents. rewrite snd_bind, fst_fetch_latents, Hlatents.
  fold tasks in Hsnd. unfold fetch_latents. fold tasks. rewrite Hsnd.
  unfold bind, lift, debug_log, emit.
  destruct (getitem latents 0) as [first|e]; cbn [fst snd];
    [|eexists; split; [reflexivity | exact Hretrieved]].
  destruct (validate_shapes _ _ _ _) as [[]|e]; cbn [fst snd];
    [|eexists; split; [reflexivity | exact Hretrieved]].
  exists (concat (map (fetch_events st) ran) ++
          [Debug " -> stacking latents"])%list.
  split.
  - rewrite <- add_events_app. reflexivity.
  - rewrite omap_app. simpl. rewrite app_nil_r. exact Hretrieved.
Qed.

Lemma compute_latents_fetches_each_key_once_witness :
  exists evs,
    snd (compute_latents (sample_tracker (Some 0%Q) "sdxl") [2; 0; 1]
                         ["a.png"; "odd.png"; "c.png"] "b1" sample_world) =
      add_events evs sample_world /\
    omap retrieved evs ≡ₚ [("b1", "a.png"); ("b1", "odd.png"); ("b1", "c.png")].
Proof.
  apply (compute_latents_fetches_each_key_once
           (sample_tracker (Some 0%Q) "sdxl") [2; 0; 1]
           ["a.png"; "odd.png"; "c.png"] "b1" sample_world).
  intros fp Hfp. exists (sample_latent fp). apply sample_tracker_retrieve.
  elem_cases Hfp; discriminate.
Defined.

(** ** [compute_prompt_embeddings]: one batched call *)

(** What [compute_prompt_embeddings] returns is the cache's reply. *)
Lemma compute_prompt_embeddings_Ok
    (st : StateTracker) (captions : list string) (arg : string) (w : world)
    (prompt : tensor) (pooled : option tensor) :
  fst (compute_prompt_embeddings st captions arg w) = Ok (prompt, pooled) ->
  if String.eqb (model_type st) "sdxl"
  then exists q,
         compute_embeddings_for_sdxl_prompts st captions = Ok (prompt, q) /\
         pooled = Some q
  else exists reply,
         compute_embeddings_for_legacy_prompts st captions = Ok reply /\
         reply !! 0 = Some prompt /\ pooled = None.
Proof.
  unfold compute_prompt_embeddings, debug_log, emit, bind, lift, ret, getitem,
    torch_concat_1.
  destruct (String.eqb (model_type st) "sdxl"); cbn [fst snd].
  - destruct (compute_embeddings_for_sdxl_prompts st captions) as [[p q]|e];
      cbn [fst snd]; [|discriminate].
    destruct (shape p); cbn [fst snd]; [discriminate|].
    destruct (shape q); cbn [fst snd]; [discriminate|].
    intros [= <- <-]. eexists. split; reflexivity.
  - destruct (compute_embeddings_for_legacy_prompts st captions) as [reply|e];
      cbn [fst snd]; [|discriminate].
    destruct (reply !! 0) as [p|] eqn:E0; cbn [fst snd]; [|discriminate].
    destruct (shape p); cbn [fst snd]; [discriminate|].
    intros [= <- <-]. eexists. repeat split. exact E0.
Qed.

(** X6. [compute_prompt_embeddings] calls the embedding cache exactly once,
    with all the captions and through the entry point of the cache's own
    variant, whether or not the call succeeds, and changes nothing else of
    the world but the trace. What it returns is the cache's reply
    unchanged: both tensors under the dual variant, the first element of
    the reply and no pooled component otherwise. *)
Theorem compute_prompt_embeddings_one_call
    (st : StateTracker) (captions : list string) (arg : string) (w : world) :
  (exists evs,
     snd (compute_prompt_embeddings st captions arg w) = add_events evs w /\
     omap embed_call evs = [(String.eqb (model_type st) "sdxl", captions)]) /\
  (forall prompt pooled,
     fst (compute_prompt_embeddings st captions arg w) = Ok (prompt, pooled) ->
     if String.eqb (model_type st) "sdxl"
     then exists q,
            compute_embeddings_for_sdxl_prompts st captions = Ok (prompt, q) /\
            pooled = Some q
     else exists reply,
            compute_embeddings_for_legacy_prompts st captions = Ok reply /\
            reply !! 0 = Some prompt /\ pooled = None).
Proof.
  split; [|intros prompt pooled; apply compute_prompt_embeddings_Ok].
  unfold compute_prompt_embeddings, debug_log, emit, bind, lift, ret, getitem,
    torch_concat_1, add_events.
  destruct (String.eqb (model_type st) "sdxl"); cbn [fst snd heap rng trace].
  - destruct (compute_embeddings_for_sdxl_prompts st captions) as [[p q]|e];
      cbn [fst snd heap rng trace].
    + destruct (shape p); cbn [fst snd heap rng trace];
        [|destruct (shape q); cbn [fst snd heap rng trace]];
        eexists; (split; [rewrite <- ?app_assoc; reflexivity | reflexivity]).
    + eexists; split; [rewrite <- ?app_assoc; reflexivity | reflexivity].
  - destruct (compute_embeddings_for_legacy_prompts st captions) as [reply|e];
      cbn [fst snd heap rng trace].
    + destruct (reply !! 0) as [p|] eqn:E0; cbn [fst snd heap rng trace];
        [destruct (shape p); cbn [fst snd heap rng trace]|];
        eexists; (split; [rewrite <- ?app_assoc; reflexivity | reflexivity]).
    + eexists; split; [rewrite <- ?app_assoc; reflexivity | reflexivity].
Qed.

Lemma compute_prompt_embeddings_one_call_witness :
  exists q,
    compute_embeddings_for_sdxl_prompts (sample_tracker (Some 0%Q) "sdxl")
                                        ["a photo"; ""] = Ok (sample_embeds, q) /\
    Some sample_embeds = Some q.
Proof.
  exact (proj2 (compute_prompt_embeddings_one_call
                  (sample_tracker (Some 0%Q) "sdxl") ["a photo"; ""] "sdxl"
                  sample_world)
           sample_embeds (Some sample_embeds) eq_refl).
Defined.

(** ** [gather_conditional_size_features]: the tensor it builds *)

Lemma time_ids_entry_shape (row : list Z) (dtype : Z -> Q) (drop : bool) :
  shape (let v := torch_tensor_row row dtype in
         if drop then torch_zeros_like v else v) = [1; length row].
Proof. destruct drop; reflexivity. Qed.

Lemma time_ids_row_length (oh ow t1 t2 : Z) (cr : list Z) :
  length ([oh; ow] ++ cr ++ [t1; t2])%list = length cr + 4.
Proof. simpl. rewrite length_app. simpl. lia. Qed.

Lemma map_const_replicate {A B} (c : B) (l : list A) :
  map (fun _ => c) l = replicate (length l) c.
Proof. induction l as [|a l IH]; simpl; [reflexivity | rewrite IH; reflexivity]. Qed.

Lemma length_concat_uniform {A} (m : nat) (ls : list (list A)) :
  Forall (fun l => length l = m) ls -> length (concat ls) = length ls * m.
Proof.
  induction 1 as [|l ls Hl _ IH]; simpl; [reflexivity|].
  rewrite length_app, Hl, IH. reflexivity.
Qed.

(** X7. In the tensor returned by [gather_conditional_size_features], the
    slice of a sample whose [drop_conditioning] is true is the zero vector,
    with the shape a kept sample's vector has: one row of
    [length crop + 4] entries. *)
Theorem dropped_sample_gets_zero_vector
    (examples : list nat) (latents : tensor) (dtype : Z -> Q) (w : world)
    (ids : tensor) (i obj : nat) (cr : list Z) :
  fst (gather_conditional_size_features examples latents dtype w) = Ok ids ->
  examples !! i = Some obj ->
  drop_conditioning (heap w obj) = Some true ->
  crop_coordinates (heap w obj) = Some cr ->
  tensor_getitem ids i =
  Ok {| shape := [1; length cr + 4]; data := replicate (length cr + 4) 0%Q |}.
Proof.
  intros Hrun Hi Hdrop Hcrop.
  unfold gather_conditional_size_features in Hrun.
  apply bind_Ok in Hrun as (ts & Hts & Hstack). cbn [lift fst] in Hstack.
  destruct (gather_time_ids_lookup _ _ _ _ _ _ Hts) as [Hlen Hall].
  destruct (Hall i obj Hi)
    as (latent & osize & ow & oh & t1 & t2 & cr' & drop
        & _ & _ & _ & _ & _ & _ & Hcr & Hd & Hlook).
  rewrite Hcrop in Hcr. injection Hcr as <-.
  rewrite Hdrop in Hd. injection Hd as <-.
  rewrite (tensor_getitem_stack ts ids _ i Hstack
             (gather_time_ids_well_formed _ _ _ _ _ _ Hts) Hlook).
  cbn zeta. unfold torch_zeros_like, torch_tensor_row. cbn [shape data].
  rewrite map_const_replicate, length_map, time_ids_row_length. reflexivity.
Qed.

(** X8. When [gather_conditional_size_features] returns, there is at least
    one example, every example has its original size, its crop coordinates
    and its [drop_conditioning] flag, all crop coordinates have one common
    length [k], the latents have at least as many slices as there are
    examples, and the tensor returned has shape
    (number of examples, 1, [k + 4]) and holds that many elements. *)
Theorem gather_conditional_size_features_shape
    (examples : list nat) (latents : tensor) (dtype : Z -> Q) (w : world)
    (ids : tensor) :
  fst (gather_conditional_size_features examples latents dtype w) = Ok ids ->
  exists k n s,
    0 < length examples /\
    shape latents = n :: s /\ length examples <= n /\
    shape ids = [length examples; 1; k + 4] /\
    length (data ids) = length examples * (k + 4) /\
    forall obj, obj ∈ examples ->
      exists osize cr b,
        original_size (heap w obj) = Some osize /\
        crop_coordinates (heap w obj) = Some cr /\ length cr = k /\
        drop_conditioning (heap w obj) = Some b.
Proof.
  intros Hrun. unfold gather_conditional_size_features in Hrun.
  apply bind_Ok in Hrun as (ts & Hts & Hstack). cbn [lift fst] in Hstack.
  destruct (gather_time_ids_lookup _ _ _ _ _ _ Hts) as [Hlen Hall].
  pose proof (gather_time_ids_well_formed _ _ _ _ _ _ Hts) as Hwf.
  destruct (torch_stack_Ok _ _ Hstack) as (t0 & H0 & Hshape & ->).
  assert (Hpos : 0 < length examples).
  { rewrite <- Hlen. eapply lookup_lt_Some; eauto. }
  destruct (lookup_lt_is_Some_2 examples 0 Hpos) as [obj0 Hobj0].
  destruct (Hall 0 obj0 Hobj0)
    as (latent0 & osize0 & ow0 & oh0 & a0 & b0 & cr0 & drop0
        & _ & _ & _ & _ & _ & _ & _ & _ & Hlook0).
  rewrite H0 in Hlook0. injection Hlook0 as Ht0.
  assert (Hshape0 : shape t0 = [1; length cr0 + 4]).
  { rewrite Ht0, time_ids_entry_shape. do 2 f_equal.
    simpl. rewrite length_app. simpl. lia. }
  destruct (lookup_lt_is_Some_2 examples (length examples - 1)) as [objl Hobjl];
    [lia|].
  destruct (Hall _ objl Hobjl)
    as (latentl & _ & _ & _ & _ & _ & _ & _ & Hgetl & _).
  unfold tensor_getitem in Hgetl.
  destruct (shape latents) as [|n s] eqn:Es; [discriminate|].
  destruct (0 + (length examples - 1) <? n) eqn:Elt; [|discriminate].
  apply Nat.ltb_lt in Elt.
  exists (length cr0), n, s.
  split; [exact Hpos|]. split; [reflexivity|]. split; [lia|].
  split; [cbn [shape]; rewrite Hshape0, Hlen; reflexivity|].
  split.
  - cbn [data]. rewrite (length_concat_uniform (length cr0 + 4)).
    + rewrite length_map, Hlen. reflexivity.
    + apply Forall_lookup. intros j d Hj. rewrite list_lookup_fmap in Hj.
      destruct (ts !! j) as [tj|] eqn:Etj; [|discriminate]. injection Hj as <-.
      rewrite (Forall_lookup_1 _ _ _ _ Hwf Etj).
      rewrite (Forall_lookup_1 _ _ _ _ Hshape Etj), Hshape0.
      unfold numel. simpl. lia.
  - intros obj Hobj.
    destruct (proj1 (list_elem_of_lookup _ _) Hobj) as [i Hi].
    destruct (Hall i obj Hi)
      as (latent & osize & ow & oh & t1 & t2 & cr & drop
          & _ & _ & _ & Ho & _ & _ & Hcr & Hd & Hlook).
    exists osize, cr, drop. repeat split; try assumption.
    pose proof (Forall_lookup_1 _ _ _ _ Hshape Hlook) as Hsi.
    cbv beta in Hsi. rewrite time_ids_entry_shape, Hshape0 in Hsi.
    injection Hsi as Hsi. simpl in Hsi. rewrite length_app in Hsi. simpl in Hsi. lia.
Qed.

Lemma dropped_sample_gets_zero_vector_witness :
  fst (gather_conditional_size_features [0; 1; 2] sample_latent_batch
                                        inject_Z mixed_world) = Ok mixed_time_ids /\
  tensor_getitem mixed_time_ids 1 =
  Ok {| shape := [1; 6]; data := replicate 6 0%Q |}.
Proof.
  assert (Hrun : fst (gather_conditional_size_features
                        [0; 1; 2] sample_latent_batch inject_Z mixed_world)
                 = Ok mixed_time_ids) by (vm_compute; reflexivity).
  split; [exact Hrun|].
  exact (dropped_sample_gets_zero_vector
           [0; 1; 2] sample_latent_batch inject_Z mixed_world mixed_time_ids
           1 1 [0; 0]%Z Hrun eq_refl eq_refl eq_refl).
Defined.

Lemma gather_conditional_size_features_shape_witness :
  exists k n s,
    0 < length [0; 1; 2] /\
    shape sample_latent_batch = n :: s /\ length [0; 1; 2] <= n /\
    shape mixed_time_ids = [length [0; 1; 2]; 1; k + 4] /\
    length (data mixed_time_ids) = length [0; 1; 2] * (k + 4) /\
    forall obj, obj ∈ [0; 1; 2] ->
      exists osize cr b,
        original_size (heap mixed_world obj) = Some osize /\
        crop_coordinates (heap mixed_world obj) = Some cr /\ length cr = k /\
        drop_conditioning (heap mixed_world obj) = Some b.
Proof.
  apply (gather_conditional_size_features_shape
           [0; 1; 2] sample_latent_batch inject_Z mixed_world mixed_time_ids).
  vm_compute. reflexivity.
Defined.

(** ** Caption dropout, in general *)

Lemma dropout_loop_cons_positive (q : Q) (obj : nat) (rest : list nat)
    (backend : option string) (w : world) :
  Qltb 0 q = true ->
  dropout_loop (Some q) (obj :: rest) backend w =
  dropout_loop (Some q) rest (Some (data_backend_id (heap w obj)))
               (dropout_step q obj w).
Proof.
  intros Hq. cbn [dropout_loop].
  unfold bind, load, lift, py_gt, py_lt, ret, np_random_rand, dropout_step.
  rewrite Hq. cbn [negb is_not_None fst snd rng].
  destruct (Qltb (rng w 0) q); reflexivity.
Qed.

Lemma dropout_step_rng (q : Q) (obj : nat) (w : world) (n : nat) :
  rng (dropout_step q obj w) n = rng w (S n).
Proof. unfold dropout_step. destruct (Qltb (rng w 0) q); reflexivity. Qed.

Lemma dropout_step_trace (q : Q) (obj : nat) (w : world) :
  trace (dropout_step q obj w) = (trace w ++ [CallRand (rng w 0)])%list.
Proof. unfold dropout_step. destruct (Qltb (rng w 0) q); reflexivity. Qed.

Lemma dropout_step_heap (q : Q) (obj : nat) (w : world) :
  heap (dropout_step q obj w) obj =
  if Qltb (rng w 0) q then dropped (heap w obj) else kept (heap w obj).
Proof.
  unfold dropout_step. destruct (Qltb (rng w 0) q); simpl;
    rewrite !fn_lookup_insert; reflexivity.
Qed.

Lemma dropout_step_heap_ne (q : Q) (obj obj' : nat) (w : world) :
  obj <> obj' -> heap (dropout_step q obj w) obj' = heap w obj'.
Proof.
  intros Hne. unfold dropout_step. destruct (Qltb (rng w 0) q); simpl;
    rewrite !fn_lookup_insert_ne by exact Hne; reflexivity.
Qed.

(** The draws: one per example, in the order of the examples. *)
Lemma dropout_loop_positive_draws (q : Q) (examples : list nat) :
  Qltb 0 q = true ->
  forall backend w,
    let w' := snd (dropout_loop (Some q) examples backend w) in
    (forall n, rng w' n = rng w (length examples + n)) /\
    trace w' = (trace w ++ map (fun i => CallRand (rng w i))
                               (seq 0 (length examples)))%list /\
    (forall obj, obj ∉ examples -> heap w' obj = heap w obj).
Proof.
  intros Hq. induction examples as [|obj0 examples IH]; intros backend w; cbn zeta.
  - simpl. rewrite app_nil_r. auto.
  - rewrite dropout_loop_cons_positive by exact Hq.
    destruct (IH (Some (data_backend_id (heap w obj0))) (dropout_step q obj0 w))
      as (Hrng & Htrace & Hother).
    split; [|split].
    + intros n. rewrite Hrng, dropout_step_rng. f_equal; simpl; lia.
    + rewrite Htrace, dropout_step_trace. rewrite <- app_assoc. f_equal.
      cbn [length seq map app]. f_equal.
      rewrite <- seq_shift, map_map.
      apply map_ext. intros i. rewrite dropout_step_rng. reflexivity.
    + intros obj Hobj. apply not_elem_of_cons in Hobj. destruct Hobj as [Hne Hnin].
      rewrite (Hother obj Hnin). apply dropout_step_heap_ne. congruence.
Qed.

(** Distinct examples: each is dropped or kept by its own draw. *)
Lemma dropout_loop_positive_distinct (q : Q) (examples : list nat) :
  Qltb 0 q = true ->
  NoDup examples ->
  forall backend w i obj,
    examples !! i = Some obj ->
    heap (snd (dropout_loop (Some q) examples backend w)) obj =
    if Qltb (rng w i) q then dropped (heap w obj) else kept (heap w obj).
Proof.
  intros Hq Hnodup. induction Hnodup as [|obj0 examples Hnin Hnodup IH];
    intros backend w i obj Hi.
  - discriminate.
  - rewrite dropout_loop_cons_positive by exact Hq.
    destruct i as [|i]; simpl in Hi.
    + injection Hi as <-.
      destruct (dropout_loop_positive_draws q examples Hq
                  (Some (data_backend_id (heap w obj0))) (dropout_step q obj0 w))
        as (_ & _ & Hother).
      rewrite (Hother obj0 Hnin). apply dropout_step_heap.
    + rewrite (IH _ _ i obj Hi), dropout_step_rng.
      rewrite dropout_step_heap_ne; [reflexivity|].
      intros ->. apply Hnin. eapply list_elem_of_lookup_2; eauto.
Qed.

(** A dictionary that occurs several times in the list: its caption is
    cleared as soon as one occurrence is dropped, and its flag is the one
    of its last occurrence. *)
Lemma dropout_loop_positive_repeated (q : Q) (examples : list nat) :
  Qltb 0 q = true ->
  forall backend w,
    let w' := snd (dropout_loop (Some q) examples backend w) in
    (forall obj,
       instance_prompt_text (heap w' obj) = "" \/
       instance_prompt_text (heap w' obj) = instance_prompt_text (heap w obj)) /\
    (forall obj i,
       examples !! i = Some obj -> Qltb (rng w i) q = true ->
       instance_prompt_text (heap w' obj) = "") /\
    (forall obj,
       (forall i, examples !! i = Some obj -> Qltb (rng w i) q = false) ->
       instance_prompt_text (heap w' obj) = instance_prompt_text (heap w obj)) /\
    (forall obj j,
       examples !! j = Some obj ->
       (forall k, j < k -> examples !! k <> Some obj) ->
       drop_conditioning (heap w' obj) = Some (Qltb (rng w j) q)).
Proof.
  intros Hq. induction examples as [|obj0 examples IH]; intros backend w; cbn zeta.
  - simpl. repeat split; try (intros; discriminate). intros obj. right. reflexivity.
  - rewrite dropout_loop_cons_positive by exact Hq.
    set (ws := dropout_step q obj0 w).
    destruct (IH (Some (data_backend_id (heap w obj0))) ws) as (HC & HA & HB & HF).
    assert (Hcap : forall obj,
              instance_prompt_text (heap ws obj) =
              if decide (obj0 = obj)
              then (if Qltb (rng w 0) q then "" else instance_prompt_text (heap w obj))
              else instance_prompt_text (heap w obj)).
    { intros obj. unfold ws. destruct (decide (obj0 = obj)) as [<-|Hne].
      - rewrite dropout_step_heap. destruct (Qltb (rng w 0) q); reflexivity.
      - rewrite dropout_step_heap_ne by exact Hne. reflexivity. }
    split; [|split; [|split]].
    + intros obj. destruct (HC obj) as [-> | ->]; [left; reflexivity|].
      rewrite Hcap. destruct (decide (obj0 = obj)); [|right; reflexivity].
      destruct (Qltb (rng w 0) q); [left | right]; reflexivity.
    + intros obj [|i] Hi Hdrawn; simpl in Hi.
      * injection Hi as <-.
        destruct (HC obj0) as [-> | ->]; [reflexivity|].
        rewrite Hcap, Hdrawn. destruct (decide (obj0 = obj0)); [reflexivity | congruence].
      * apply (HA obj i Hi). unfold ws. rewrite dropout_step_rng. exact Hdrawn.
    + intros obj Hnone. rewrite HB.
      * rewrite Hcap. destruct (decide (obj0 = obj)) as [<-|Hne]; [|reflexivity].
        rewrite (Hnone 0 eq_refl). reflexivity.
      * intros i Hi. unfold ws. rewrite dropout_step_rng. apply (Hnone (S i)). exact Hi.
    + intros obj [|j] Hj Hlast; simpl in Hj.
      * injection Hj as <-.
        assert (Hnin : obj0 ∉ examples).
        { intros Hin. destruct (proj1 (list_elem_of_lookup _ _) Hin) as [k Hk].
          apply (Hlast (S k)); [lia | exact Hk]. }
        destruct (dropout_loop_positive_draws q examples Hq
                    (Some (data_backend_id (heap w obj0))) ws) as (_ & _ & Hother).
        rewrite (Hother obj0 Hnin). unfold ws. rewrite dropout_step_heap.
        destruct (Qltb (rng w 0) q); reflexivity.
      * rewrite (HF obj j Hj).
        -- unfold ws. rewrite dropout_step_rng. reflexivity.
        -- intros k Hk. apply (Hlast (S k)). lia.
Qed.

(** After the dropout loop [collate_fn] neither writes to the examples nor
    draws from the random generator. *)
Lemma collate_fn_store (st : StateTracker) (sched : list nat)
    (examples : list nat) (w : world) :
  let w1 := snd (dropout_loop (caption_dropout_probability st) examples None
                              (snd (debug_log "Begin collate_fn on batch" w))) in
  heap (snd (collate_fn st sched [examples] w)) = heap w1 /\
  rng (snd (collate_fn st sched [examples] w)) = rng w1.
Proof.
  intros w1.
  destruct (collate_fn_spec st sched
              (fun w' => heap w' = heap w1 /\ rng w' = rng w1) (fun _ => true))
    with (examples := examples) (Pre := eq w) (w := w) as [Hinv _].
  - intros e w' _ Hw'. exact Hw'.
  - reflexivity.
  - intros w0 <-. split; reflexivity.
  - reflexivity.
  - reflexivity.
  - exact Hinv.
Qed.

Lemma Qltb_le (a b : Q) : (b <= a)%Q -> Qltb a b = false.
Proof.
  intros Hle. unfold Qltb. apply negb_false_iff. apply Qle_bool_iff. exact Hle.
Qed.

(** X9. With a positive probability [q] and a batch of distinct examples,
    whether [collate_fn] then returns or raises: the example at position
    [i] is dropped (caption cleared, flag true) if the [i]-th draw is below
    [q] and kept (caption as it was, flag false) otherwise, nothing else of
    it changes, and no other example changes at all. *)
Theorem caption_dropout_follows_the_draws
    (st : StateTracker) (sched : list nat) (examples : list nat) (w : world) (q : Q) :
  caption_dropout_probability st = Some q ->
  (0 < q)%Q ->
  NoDup examples ->
  let w' := snd (collate_fn st sched [examples] w) in
  (forall i obj,
     examples !! i = Some obj ->
     heap w' obj = if Qltb (rng w i) q then dropped (heap w obj) else kept (heap w obj)) /\
  (forall obj, obj ∉ examples -> heap w' obj = heap w obj).
Proof.
  intros Hp Hq Hnodup w'. apply Qltb_lt in Hq.
  destruct (collate_fn_store st sched examples w) as [Hheap _].
  subst w'. rewrite Hheap, Hp. split.
  - intros i obj Hi.
    apply (dropout_loop_positive_distinct q examples Hq Hnodup None
             (snd (debug_log "Begin collate_fn on batch" w)) i obj Hi).
  - intros obj Hobj.
    apply (dropout_loop_positive_draws q examples Hq None
             (snd (debug_log "Begin collate_fn on batch" w))). exact Hobj.
Qed.

(** X10. With a positive probability [q], and also when the same
    dictionary occurs several times in the batch: its flag after
    [collate_fn] is decided by the draw of its last occurrence, while its
    caption is cleared as soon as the draw of one occurrence is below [q],
    and is unchanged only if none is. A repeated example can so end with
    its caption cleared and its conditioning kept. *)
Theorem caption_dropout_on_repeated_examples
    (st : StateTracker) (sched : list nat) (examples : list nat) (w : world) (q : Q) :
  caption_dropout_probability st = Some q ->
  (0 < q)%Q ->
  let w' := snd (collate_fn st sched [examples] w) in
  (forall obj j,
     examples !! j = Some obj ->
     (forall k, j < k -> examples !! k <> Some obj) ->
     drop_conditioning (heap w' obj) = Some (Qltb (rng w j) q)) /\
  (forall obj i,
     examples !! i = Some obj -> Qltb (rng w i) q = true ->
     instance_prompt_text (heap w' obj) = "") /\
  (forall obj,
     (forall i, examples !! i = Some obj -> Qltb (rng w i) q = false) ->
     instance_prompt_text (heap w' obj) = instance_prompt_text (heap w obj)).
Proof.
  intros Hp Hq w'. apply Qltb_lt in Hq.
  destruct (collate_fn_store st sched examples w) as [Hheap _].
  subst w'. rewrite Hheap, Hp.
  destruct (dropout_loop_positive_repeated q examples Hq None
              (snd (debug_log "Begin collate_fn on batch" w)))
    as (_ & HA & HB & HF).
  split; [exact HF|]. split; [exact HA | exact HB].
Qed.

(** X11. [collate_fn] draws one random value per example when the
    probability is positive and none when it is zero or negative, whether
    it then returns or raises: the generator is left advanced by the number
    of examples, or as it was. *)
Theorem caption_dropout_draw_count
    (st : StateTracker) (sched : list nat) (examples : list nat) (w : world) (q : Q) :
  caption_dropout_probability st = Some q ->
  let w' := snd (collate_fn st sched [examples] w) in
  ((0 < q)%Q -> forall n, rng w' n = rng w (length examples + n)) /\
  ((q <= 0)%Q -> rng w' = rng w).
Proof.
  intros Hp w'.
  destruct (collate_fn_store st sched examples w) as [_ Hrng].
  subst w'. rewrite Hrng, Hp. split.
  - intros Hq n. apply Qltb_lt in Hq.
    apply (dropout_loop_positive_draws q examples Hq None
             (snd (debug_log "Begin collate_fn on batch" w))).
  - intros Hq. apply Qltb_le in Hq.
    apply (dropout_loop_never q examples Hq None
             (snd (debug_log "Begin collate_fn on batch" w))).
Qed.

Lemma NoDup_three : NoDup [0; 1; 2].
Proof.
  repeat (apply NoDup_cons_2;
          [intros H; repeat (apply elem_of_cons in H; destruct H as [H|H];
                             [discriminate|]); inversion H|]).
  apply NoDup_nil_2.
Qed.

Lemma caption_dropout_follows_the_draws_witness :
  let w' := snd (collate_fn (sample_tracker (Some (1 # 2)%Q) "sdxl") [2; 0; 1]
                            [[0; 1; 2]] low_then_high_world) in
  heap w' 0 = dropped (sample_heap 0) /\ heap w' 1 = kept (sample_heap 1).
Proof.
  destruct (caption_dropout_follows_the_draws
              (sample_tracker (Some (1 # 2)%Q) "sdxl") [2; 0; 1] [0; 1; 2]
              low_then_high_world (1 # 2)%Q eq_refl eq_refl NoDup_three)
    as [Hin _].
  split; [exact (Hin 0 0 eq_refl) | exact (Hin 1 1 eq_refl)].
Defined.

Lemma caption_dropout_on_repeated_examples_witness :
  let w' := snd (collate_fn (sample_tracker (Some (1 # 2)%Q) "sdxl") [1; 0]
                            [[0; 0]] low_then_high_world) in
  drop_conditioning (heap w' 0) = Some false /\
  instance_prompt_text (heap w' 0) = "".
Proof.
  destruct (caption_dropout_on_repeated_examples
              (sample_tracker (Some (1 # 2)%Q) "sdxl") [1; 0] [0; 0]
              low_then_high_world (1 # 2)%Q eq_refl eq_refl)
    as (Hflag & Hcleared & _).
  split.
  - apply (Hflag 0 1 eq_refl). intros [|[|k]] Hk; try lia. discriminate.
  - exact (Hcleared 0 0 eq_refl eq_refl).
Defined.

Lemma caption_dropout_draw_count_witness :
  rng (snd (collate_fn (sample_tracker (Some (1 # 2)%Q) "sdxl") [2; 0; 1]
                       [[0; 1; 2]] low_then_high_world)) 0 =
    rng low_then_high_world 3 /\
  rng (snd (collate_fn (sample_tracker (Some 0%Q) "sdxl") [2; 0; 1]
                       [[0; 1; 2]] low_then_high_world)) =
    rng low_then_high_world.
Proof.
  split.
  - exact (proj1 (caption_dropout_draw_count
                    (sample_tracker (Some (1 # 2)%Q) "sdxl") [2; 0; 1] [0; 1; 2]
                    low_then_high_world (1 # 2)%Q eq_refl) eq_refl 0).
  - apply (proj2 (caption_dropout_draw_count
                    (sample_tracker (Some 0%Q) "sdxl") [2; 0; 1] [0; 1; 2]
                    low_then_high_world 0%Q eq_refl)).
    unfold Qle. simpl. lia.
Defined.

(** ** What a successful [collate_fn] returns *)

Lemma mapM_load {B} (f : example -> B) (examples : list nat) (w : world) :
  mapM (fun example => let* e := load example in ret (f e)) examples w =
  (Ok (map (fun obj => f (heap w obj)) examples), w).
Proof.
  induction examples as [|obj examples IH]; [reflexivity|].
  cbn [mapM map]. unfold bind at 1. unfold bind at 1. cbn [load ret].
  unfold bind at 1. rewrite IH. reflexivity.
Qed.

Lemma compute_latents_heap (st : StateTracker) (sched : list nat)
    (filepaths : list string) (backend : string) (w : world) :
  heap (snd (compute_latents st sched filepaths backend w)) = heap w.
Proof.
  apply (compute_latents_spec st sched (fun w' => heap w' = heap w) (fun _ => true)).
  - intros e w' _ Hw'. exact Hw'.
  - reflexivity.
  - reflexivity.
Qed.

Lemma sequential_results_Forall2 {A B} (g : A -> result B) (l : list A) (bs : list B) :
  sequential_results (map g l) = Ok bs ->
  Forall2 (fun a b => g a = Ok b) l bs.
Proof.
  revert bs. induction l as [|a l IH]; intros bs H; simpl in H.
  - injection H as <-. constructor.
  - destruct (g a) as [b|e] eqn:Ea; [|discriminate].
    destruct (sequential_results (map g l)) as [bs'|e]; [|discriminate].
    injection H as <-. constructor; [exact Ea | apply IH; reflexivity].
Qed.

(** What [compute_latents] returns: the stack of the latents of the keys. *)
Lemma compute_latents_Ok (st : StateTracker) (sched : list nat)
    (filepaths : list string) (backend : string) (w : world) (T : tensor) :
  fst (compute_latents st sched filepaths backend w) = Ok T ->
  exists latents t0,
    Forall2 (fun fp t => retrieve_from_cache st backend fp = Ok t) filepaths latents /\
    latents !! 0 = Some t0 /\
    Forall (fun t => shape t = shape t0) latents /\
    T = {| shape := length latents :: shape t0; data := concat (map data latents) |}.
Proof.
  unfold compute_latents. intros H.
  apply bind_Ok in H as (latents & Hfetch & H).
  rewrite fst_fetch_latents in Hfetch.
  apply bind_Ok in H as (first & Hfirst & H). cbn [lift fst snd] in Hfirst, H.
  apply bind_Ok in H as ([] & _ & H). cbn [lift fst snd] in H.
  apply bind_Ok in H as ([] & _ & H). cbn [lift fst snd] in H.
  destruct (torch_stack_Ok _ _ H) as (t0 & H0 & Hshape & ->).
  exists latents, t0. split; [apply sequential_results_Forall2; exact Hfetch|].
  repeat split; assumption.
Qed.

(** The backend the dropout loop hands on: the one of the last example. *)
Lemma dropout_loop_backend (q : Q) (examples : list nat) :
  forall backend w,
    fst (dropout_loop (Some q) examples backend w) =
    Ok (match list.last examples with
        | Some obj => Some (data_backend_id (heap w obj))
        | None => backend
        end).
Proof.
  induction examples as [|obj0 examples IH]; intros backend w; [reflexivity|].
  destruct (Qltb 0 q) eqn:Hq.
  - rewrite dropout_loop_cons_positive by exact Hq. rewrite IH.
    destruct examples as [|obj1 examples]; [reflexivity|].
    change (list.last (obj0 :: obj1 :: examples)) with (list.last (obj1 :: examples)).
    destruct (list.last (obj1 :: examples)) as [obj|] eqn:El;
      [|apply last_None in El; discriminate].
    do 2 f_equal. destruct (decide (obj0 = obj)) as [<-|Hne].
    + rewrite dropout_step_heap. destruct (Qltb (rng w 0) q); reflexivity.
    + rewrite dropout_step_heap_ne by exact Hne. reflexivity.
  - rewrite dropout_loop_cons_never by exact Hq. rewrite IH.
    destruct examples as [|obj1 examples]; [reflexivity|].
    change (list.last (obj0 :: obj1 :: examples)) with (list.last (obj1 :: examples)).
    destruct (list.last (obj1 :: examples)) as [obj|] eqn:El;
      [|apply last_None in El; discriminate].
    do 2 f_equal. simpl. destruct (decide (obj0 = obj)) as [<-|Hne].
    + rewrite fn_lookup_insert. reflexivity.
    + rewrite fn_lookup_insert_ne by exact Hne. reflexivity.
Qed.

(** The dropout loop leaves the fields it does not assign as they were. *)
Lemma dropout_loop_read_only (p : option Q) (examples : list nat)
    (backend : option string) (w : world) :
  same_read_only_fields w (snd (dropout_loop p examples backend w)).
Proof.
  apply (dropout_loop_spec (same_read_only_fields w)).
  - intros obj w'. apply same_read_only_fields_store. intros e. repeat split.
  - intros obj b w'. apply same_read_only_fields_store. intros e. repeat split.
  - intros w' Hw'. exact Hw'.
  - apply same_read_only_fields_refl.
Qed.

(** The steps of a call of [collate_fn] that returns. *)
Lemma collate_fn_Ok (st : StateTracker) (sched : list nat) (examples : list nat)
    (w : world) (r : batch_record) :
  fst (collate_fn st sched [examples] w) = Ok r ->
  let w0 := snd (debug_log "Begin collate_fn on batch" w) in
  let w1 := snd (dropout_loop (caption_dropout_probability st) examples None w0) in
  exists backend w2 w3,
    fst (dropout_loop (caption_dropout_probability st) examples None w0) =
      Ok (Some backend) /\
    py_div (py_sum (map (fun obj => luminance (heap w1 obj)) examples))
           (length examples) = Ok (batch_luminance r) /\
    fst (compute_latents st sched
           (map (fun obj => image_path (heap w1 obj)) examples) backend w2) =
      Ok (latent_batch r) /\
    fst (compute_prompt_embeddings st
           (map (fun obj => instance_prompt_text (heap w1 obj)) examples) "sdxl" w3) =
      Ok (prompt_embeds r, add_text_embeds r) /\
    match add_text_embeds r with
    | Some _ => exists ids, batch_time_ids r = Some ids
    | None => batch_time_ids r = None
    end.
Proof.
  intros H w0 w1. unfold collate_fn in H. cbn [length Nat.eqb negb] in H.
  match type of H with
  | context [bind (debug_log ?m) ?k w] =>
      change (bind (debug_log m) k w) with (k tt (snd (debug_log m w))) in H
  end.
  cbv beta in H.
  match type of H with
  | context [bind (lift (getitem [examples] 0)) ?k ?w'] =>
      change (bind (lift (getitem [examples] 0)) k w') with (k examples w') in H
  end.
  cbv beta in H. fold w0 in H.
  apply bind_Ok in H as (bopt & Hdrop & H). fold w1 in H.
  apply bind_Ok in H as ([] & _ & H).
  apply bind_Ok in H as (lums & Hlums & H).
  rewrite mapM_load in Hlums, H. cbn [fst snd] in Hlums, H. injection Hlums as <-.
  apply bind_Ok in H as (avg & Havg & H). cbn [lift fst snd] in Havg, H.
  rewrite length_map in Havg.
  apply bind_Ok in H as ([] & _ & H).
  apply bind_Ok in H as (filepaths & Hfps & H).
  unfold extract_filepaths in Hfps, H.
  rewrite mapM_load in Hfps, H. cbn [fst snd] in Hfps, H. injection Hfps as <-.
  apply bind_Ok in H as ([] & _ & H).
  apply bind_Ok in H as (backend & Hbackend & H).
  destruct bopt as [b|]; [|discriminate].
  cbn [ret fst snd] in Hbackend, H. injection Hbackend as <-.
  apply bind_Ok in H as (T & HT & H).
  apply bind_Ok in H as ([] & _ & H).
  apply bind_Ok in H as ([] & _ & H). rewrite check_latent_shapes_silent in H.
  apply bind_Ok in H as ([] & _ & H).
  apply bind_Ok in H as (captions & Hcaptions & H).
  rewrite mapM_load in Hcaptions, H. cbn [fst snd] in Hcaptions, H.
  injection Hcaptions as <-.
  apply bind_Ok in H as ([] & _ & H).
  apply bind_Ok in H as ([prompt pooled] & Hemb & H).
  apply bind_Ok in H as (ids & Hids & H).
  cbn [ret fst] in H. injection H as <-. cbn [batch_luminance latent_batch
    prompt_embeds add_text_embeds batch_time_ids].
  cbn [debug_log emit snd heap] in HT, Hemb.
  rewrite compute_latents_heap in Hemb. cbn [debug_log emit snd heap] in Hemb.
  eexists b, _, _. split; [exact Hdrop|]. split; [exact Havg|].
  split; [exact HT|]. split; [exact Hemb|].
  destruct pooled as [pooled|].
  - apply bind_Ok in Hids as ([] & _ & Hids).
    apply bind_Ok in Hids as (t & _ & Hids).
    apply bind_Ok in Hids as ([] & _ & Hids).
    cbn [ret fst] in Hids. injection Hids as <-. eexists. reflexivity.
  - cbn [ret fst] in Hids. injection Hids as <-. reflexivity.
Qed.

Lemma py_div_Ok (x y : Q) (n : nat) :
  py_div x n = Ok y -> 0 < n /\ y = (x / inject_Z (Z.of_nat n))%Q.
Proof.
  destruct n as [|n]; [discriminate|]. intros [= <-]. split; [lia | reflexivity].
Qed.

(** A call that returns had examples and a probability that is a number. *)
Lemma collate_fn_Ok_inputs (st : StateTracker) (sched : list nat)
    (examples : list nat) (w : world) (r : batch_record) :
  fst (collate_fn st sched [examples] w) = Ok r ->
  0 < length examples /\ exists q, caption_dropout_probability st = Some q.
Proof.
  intros H. destruct (collate_fn_Ok _ _ _ _ _ H)
    as (backend & w2 & w3 & Hdrop & Havg & _).
  apply py_div_Ok in Havg as [Hpos _]. split; [exact Hpos|].
  destruct (caption_dropout_probability st) as [q|]; [eexists; reflexivity|].
  destruct examples as [|obj examples]; [simpl in Hpos; lia | discriminate].
Qed.

(** X12. [collate_fn] returns only when it is given exactly one batch
    group, that group has at least one example, and the configured
    caption-dropout probability is a number (not [None]). *)
Theorem collate_fn_returns_only_for
    (st : StateTracker) (sched : list nat) (batch : list (list nat)) (w : world)
    (r : batch_record) :
  fst (collate_fn st sched batch w) = Ok r ->
  exists examples q,
    batch = [examples] /\ examples <> [] /\
    caption_dropout_probability st = Some q.
Proof.
  intros H. destruct batch as [|examples [|second rest]]; try discriminate.
  destruct (collate_fn_Ok_inputs _ _ _ _ _ H) as [Hpos [q Hq]].
  exists examples, q. split; [reflexivity|]. split; [|exact Hq].
  intros ->. simpl in Hpos. lia.
Qed.

(** X13. The latent tensor of the record returned by [collate_fn] is the
    stack, in the order of the examples, of the latents the cache holds
    for their image paths under the backend of the last example of the
    batch, whatever the backends of the other examples; these latents
    have one common shape [s], and the tensor has shape
    (number of examples, [s]). *)
Theorem collate_fn_latent_batch
    (st : StateTracker) (sched : list nat) (examples : list nat) (w : world)
    (r : batch_record) :
  fst (collate_fn st sched [examples] w) = Ok r ->
  exists prefix last_example latents s,
    examples = (prefix ++ [last_example])%list /\
    Forall2 (fun obj t =>
               retrieve_from_cache st (data_backend_id (heap w last_example))
                                   (image_path (heap w obj)) = Ok t)
            examples latents /\
    Forall (fun t => shape t = s) latents /\
    latent_batch r = {| shape := length examples :: s;
                        data := concat (map data latents) |}.
Proof.
  intros H. destruct (collate_fn_Ok_inputs _ _ _ _ _ H) as [Hpos [q Hq]].
  destruct (collate_fn_Ok _ _ _ _ _ H)
    as (backend & w2 & w3 & Hdrop & _ & HT & _).
  rewrite Hq in Hdrop, HT.
  set (w0 := snd (debug_log "Begin collate_fn on batch" w)) in *.
  set (w1 := snd (dropout_loop (Some q) examples None w0)) in *.
  pose proof (dropout_loop_read_only (Some q) examples None w0) as Hframe.
  fold w1 in Hframe.
  rewrite dropout_loop_backend in Hdrop.
  destruct (list.last examples) as [last_example|] eqn:El; [|discriminate].
  injection Hdrop as <-.
  apply last_Some in El as [prefix ->].
  apply compute_latents_Ok in HT as (latents & t0 & Hall & H0 & Hshape & HTeq).
  exists prefix, last_example, latents, (shape t0).
  split; [reflexivity|]. split; [|split; [exact Hshape|]].
  - apply Forall2_fmap_l in Hall.
    eapply Forall2_impl; [|exact Hall]. intros obj t Ht. cbn in Ht.
    destruct (Hframe obj) as (Hpath & _).
    unfold w0 in Hpath. cbn [debug_log emit snd heap] in Hpath.
    rewrite <- Hpath. exact Ht.
  - rewrite HTeq. f_equal. f_equal.
    apply Forall2_length in Hall. rewrite length_map in Hall. symmetry. exact Hall.
Qed.

(** X15. The embeddings of the record returned by [collate_fn] are the
    cache's reply for the captions of the examples as the dropout loop
    left them (the ones the examples hold after the call): both tensors
    under the dual variant, the first element of the reply and no pooled
    component otherwise. *)
Theorem collate_fn_embeds_captions_after_dropout
    (st : StateTracker) (sched : list nat) (examples : list nat) (w : world)
    (r : batch_record) :
  fst (collate_fn st sched [examples] w) = Ok r ->
  let w' := snd (collate_fn st sched [examples] w) in
  let captions := map (fun obj => instance_prompt_text (heap w' obj)) examples in
  if String.eqb (model_type st) "sdxl"
  then exists q,
         compute_embeddings_for_sdxl_prompts st captions = Ok (prompt_embeds r, q) /\
         add_text_embeds r = Some q
  else exists reply,
         compute_embeddings_for_legacy_prompts st captions = Ok reply /\
         reply !! 0 = Some (prompt_embeds r) /\ add_text_embeds r = None.
Proof.
  intros H w' captions.
  destruct (collate_fn_Ok _ _ _ _ _ H)
    as (backend & w2 & w3 & _ & _ & _ & Hemb & _).
  destruct (collate_fn_store st sched examples w) as [Hheap _].
  subst captions w'. rewrite Hheap.
  exact (compute_prompt_embeddings_Ok _ _ _ _ _ _ Hemb).
Qed.

(** X16. In the record returned by [collate_fn] the pooled embeddings and
    the conditioning tensor are both present when the cache's variant is
    ["sdxl"], and both absent otherwise. *)
Theorem collate_fn_conditioning_slots
    (st : StateTracker) (sched : list nat) (examples : list nat) (w : world)
    (r : batch_record) :
  fst (collate_fn st sched [examples] w) = Ok r ->
  (model_type st = "sdxl" /\
   exists pooled ids, add_text_embeds r = Some pooled /\ batch_time_ids r = Some ids) \/
  (model_type st <> "sdxl" /\
   add_text_embeds r = None /\ batch_time_ids r = None).
Proof.
  intros H.
  destruct (collate_fn_Ok _ _ _ _ _ H)
    as (backend & w2 & w3 & _ & _ & _ & Hemb & Hslots).
  apply compute_prompt_embeddings_Ok in Hemb.
  destruct (String.eqb (model_type st) "sdxl") eqn:Evariant.
  - left. apply String.eqb_eq in Evariant. split; [exact Evariant|].
    destruct Hemb as (q & _ & Hq). rewrite Hq in Hslots.
    destruct Hslots as [ids Hids]. exists q, ids. split; assumption.
  - right. apply String.eqb_neq in Evariant. split; [exact Evariant|].
    destruct Hemb as (reply & _ & _ & Hnone). rewrite Hnone in Hslots.
    split; assumption.
Qed.

(** The slice of one sample in the tensor of
    [gather_conditional_size_features]. *)
Lemma gather_slice (examples : list nat) (latents : tensor) (dtype : Z -> Q)
    (w : world) (ids : tensor) (i obj : nat) (ow oh : Z) (cr : list Z) (b : bool)
    (n c h wd : nat) :
  fst (gather_conditional_size_features examples latents dtype w) = Ok ids ->
  examples !! i = Some obj ->
  original_size (heap w obj) = Some [Some ow; Some oh] ->
  crop_coordinates (heap w obj) = Some cr ->
  drop_conditioning (heap w obj) = Some b ->
  shape latents = [n; c; h; wd] ->
  tensor_getitem ids i =
  Ok (let v := torch_tensor_row
                 ([oh; ow] ++ cr ++ [Z.of_nat h * 8; Z.of_nat wd * 8]%Z) dtype in
      if b then torch_zeros_like v else v).
Proof.
  intros Hrun Hi Hosize Hcrop Hdrop Hshape.
  unfold gather_conditional_size_features in Hrun.
  apply bind_Ok in Hrun as (ts & Hts & Hstack). cbn [lift fst] in Hstack.
  destruct (gather_time_ids_lookup _ _ _ _ _ _ Hts) as [Hlen Hall].
  destruct (Hall i obj Hi)
    as (latent & osize & ow' & oh' & t1 & t2 & cr' & drop
        & Hlatent & Ht1 & Ht2 & Ho & H0 & H1 & Hcr & Hd & Hlook).
  rewrite Hosize in Ho. injection Ho as <-.
  rewrite Hcrop in Hcr. injection Hcr as <-.
  rewrite Hdrop in Hd. injection Hd as <-.
  cbn in H0, H1. injection H0 as <-. injection H1 as <-.
  unfold tensor_getitem in Hlatent. rewrite Hshape in Hlatent.
  destruct (0 + i <? n); [|discriminate]. injection Hlatent as <-.
  cbn in Ht1, Ht2. injection Ht1 as <-. injection Ht2 as <-.
  exact (tensor_getitem_stack ts ids _ i Hstack
           (gather_time_ids_well_formed _ _ _ _ _ _ Hts) Hlook).
Qed.

(** X17. End to end, for a batch of distinct examples and a positive
    probability [q]: in the conditioning tensor of the record returned by
    [collate_fn], the slice of the example at position [i] is the zero
    vector if the [i]-th draw is below [q], and otherwise the vector
    (original height, original width, crop top, crop left, 8 times the
    latent height, 8 times the latent width) in the configured dtype. *)
Theorem collate_fn_conditioning_of_each_sample
    (st : StateTracker) (sched : list nat) (examples : list nat) (w : world)
    (q : Q) (r : batch_record) (ids : tensor) (i obj : nat)
    (ow oh ct cl : Z) (n c h wd : nat) :
  caption_dropout_probability st = Some q ->
  (0 < q)%Q ->
  NoDup examples ->
  fst (collate_fn st sched [examples] w) = Ok r ->
  batch_time_ids r = Some ids ->
  examples !! i = Some obj ->
  original_size (heap w obj) = Some [Some ow; Some oh] ->
  crop_coordinates (heap w obj) = Some [ct; cl] ->
  shape (latent_batch r) = [n; c; h; wd] ->
  tensor_getitem ids i =
  Ok {| shape := [1; 6];
        data := if Qltb (rng w i) q
                then replicate 6 0%Q
                else map (weight_dtype st)
                         [oh; ow; ct; cl; Z.of_nat h * 8; Z.of_nat wd * 8]%Z |}.
Proof.
  intros Hp Hq Hnodup Hrun Hids Hi Hosize Hcrop Hshape. apply Qltb_lt in Hq.
  destruct (collate_fn_heap st sched examples w) as [_ Hgather].
  destruct (Hgather r ids Hrun Hids) as (w2 & Hheap2 & Hg).
  rewrite Hp in Hheap2.
  pose proof (dropout_loop_positive_distinct q examples Hq Hnodup None
                (snd (debug_log "Begin collate_fn on batch" w)) i obj Hi) as Hobj.
  rewrite <- Hheap2 in Hobj. cbn [debug_log emit snd heap rng] in Hobj.
  rewrite (gather_slice examples (latent_batch r) (weight_dtype st) w2 ids i obj
             ow oh [ct; cl] (Qltb (rng w i) q) n c h wd Hg Hi).
  - destruct (Qltb (rng w i) q); reflexivity.
  - rewrite Hobj. destruct (Qltb (rng w i) q); exact Hosize.
  - rewrite Hobj. destruct (Qltb (rng w i) q); exact Hcrop.
  - rewrite Hobj. destruct (Qltb (rng w i) q); reflexivity.
  - exact Hshape.
Qed.

(** The scenario, with the draws of [low_then_high_world]. *)
Lemma sample_run :
  fst (collate_fn (sample_tracker (Some (1 # 2)%Q) "sdxl") [2; 0; 1]
                  [[0; 1; 2]] low_then_high_world) = Ok sample_record.
Proof. vm_compute. reflexivity. Qed.

Lemma collate_fn_conditioning_of_each_sample_witness :
  tensor_getitem first_dropped_time_ids 0 =
    Ok {| shape := [1; 6]; data := replicate 6 0%Q |} /\
  tensor_getitem first_dropped_time_ids 2 =
    Ok {| shape := [1; 6];
          data := map inject_Z [512; 512; 0; 0; 128; 128]%Z |}.
Proof.
  split.
  - exact (collate_fn_conditioning_of_each_sample
             (sample_tracker (Some (1 # 2)%Q) "sdxl") [2; 0; 1] [0; 1; 2]
             low_then_high_world (1 # 2)%Q sample_record first_dropped_time_ids
             0 0 512%Z 512%Z 0%Z 0%Z 3 4 16 16
             eq_refl eq_refl NoDup_three sample_run eq_refl eq_refl eq_refl eq_refl
             eq_refl).
  - exact (collate_fn_conditioning_of_each_sample
             (sample_tracker (Some (1 # 2)%Q) "sdxl") [2; 0; 1] [0; 1; 2]
             low_then_high_world (1 # 2)%Q sample_record first_dropped_time_ids
             2 2 512%Z 512%Z 0%Z 0%Z 3 4 16 16
             eq_refl eq_refl NoDup_three sample_run eq_refl eq_refl eq_refl eq_refl
             eq_refl).
Defined.

Lemma collate_fn_returns_only_for_witness :
  exists examples q,
    [[0; 1; 2]] = [examples] /\ examples <> [] /\
    caption_dropout_probability (sample_tracker (Some (1 # 2)%Q) "sdxl") = Some q.
Proof.
  exact (collate_fn_returns_only_for _ _ _ _ _ sample_run).
Defined.

Lemma collate_fn_latent_batch_witness :
  exists prefix last_example latents s,
    [0; 1; 2] = (prefix ++ [last_example])%list /\
    Forall2 (fun obj t =>
               retrieve_from_cache (sample_tracker (Some (1 # 2)%Q) "sdxl")
                 (data_backend_id (heap low_then_high_world last_example))
                 (image_path (heap low_then_high_world obj)) = Ok t)
            [0; 1; 2] latents /\
    Forall (fun t => shape t = s) latents /\
    latent_batch sample_record = {| shape := length [0; 1; 2] :: s;
                                    data := concat (map data latents) |}.
Proof.
  exact (collate_fn_latent_batch _ _ _ _ _ sample_run).
Defined.

Lemma collate_fn_embeds_captions_after_dropout_witness :
  let w' := snd (collate_fn (sample_tracker (Some (1 # 2)%Q) "sdxl") [2; 0; 1]
                            [[0; 1; 2]] low_then_high_world) in
  map (fun obj => instance_prompt_text (heap w' obj)) [0; 1; 2] =
    [""; "a photo"; "a photo"] /\
  exists q,
    compute_embeddings_for_sdxl_prompts (sample_tracker (Some (1 # 2)%Q) "sdxl")
      (map (fun obj => instance_prompt_text (heap w' obj)) [0; 1; 2]) =
      Ok (prompt_embeds sample_record, q) /\
    add_text_embeds sample_record = Some q.
Proof.
  intros w'. split; [vm_compute; reflexivity|].
  exact (collate_fn_embeds_captions_after_dropout _ _ _ _ _ sample_run).
Defined.

Lemma collate_fn_conditioning_slots_witness :
  (model_type (sample_tracker (Some (1 # 2)%Q) "sdxl") = "sdxl" /\
   exists pooled ids,
     add_text_embeds sample_record = Some pooled /\
     batch_time_ids sample_record = Some ids) \/
  (model_type (sample_tracker (Some (1 # 2)%Q) "sdxl") <> "sdxl" /\
   add_text_embeds sample_record = None /\ batch_time_ids sample_record = None).
Proof.
  exact (collate_fn_conditioning_slots _ _ _ _ _ sample_run).
Defined.

(** ** Caption dropout at probability 0 and 1 *)

Lemma Forall_eq_replicate {A} (c : A) (l : list A) :
  Forall (fun x => x = c) l -> l = replicate (length l) c.
Proof.
  induction 1 as [|x l Hx _ IH]; simpl; [reflexivity|].
  rewrite Hx, <- IH. reflexivity.
Qed.

(** The slices of a tensor of zeros that holds [n] rows of [m] entries. *)
Lemma tensor_getitem_zeros (n m i : nat) :
  i < n ->
  tensor_getitem {| shape := [n; 1; m]; data := replicate (n * m) 0%Q |} i =
  Ok {| shape := [1; m]; data := replicate m 0%Q |}.
Proof.
  intros Hi. unfold tensor_getitem. cbn [shape].
  apply Nat.ltb_lt in Hi as Hlt. rewrite Hlt. f_equal.
  unfold select. cbn [data]. f_equal.
  assert (Hnumel : numel [1; m] = m) by (unfold numel; simpl; lia).
  rewrite Hnumel, drop_replicate, take_replicate. f_equal. nia.
Qed.

(** The tensor returned by [gather_conditional_size_features]: one row per
    example, of the common length of the crop coordinates plus four. *)
Lemma gather_conditional_size_features_Ok
    (examples : list nat) (latents : tensor) (dtype : Z -> Q) (w : world)
    (ids : tensor) :
  fst (gather_conditional_size_features examples latents dtype w) = Ok ids ->
  exists k,
    shape ids = [length examples; 1; k + 4] /\
    length (data ids) = length examples * (k + 4) /\
    forall obj, obj ∈ examples ->
      exists cr, crop_coordinates (heap w obj) = Some cr /\ length cr = k.
Proof.
  intros Hrun. unfold gather_conditional_size_features in Hrun.
  apply bind_Ok in Hrun as (ts & Hts & Hstack). cbn [lift fst] in Hstack.
  destruct (gather_time_ids_lookup _ _ _ _ _ _ Hts) as [Hlen Hall].
  pose proof (gather_time_ids_well_formed _ _ _ _ _ _ Hts) as Hwf.
  destruct (torch_stack_Ok _ _ Hstack) as (t0 & H0 & Hshape & ->).
  assert (Hpos : 0 < length examples).
  { rewrite <- Hlen. eapply lookup_lt_Some; eauto. }
  destruct (lookup_lt_is_Some_2 examples 0 Hpos) as [obj0 Hobj0].
  destruct (Hall 0 obj0 Hobj0)
    as (latent0 & osize0 & ow0 & oh0 & a0 & b0 & cr0 & drop0
        & _ & _ & _ & _ & _ & _ & _ & _ & Hlook0).
  rewrite H0 in Hlook0. injection Hlook0 as Ht0.
  assert (Hshape0 : shape t0 = [1; length cr0 + 4]).
  { rewrite Ht0, time_ids_entry_shape. do 2 f_equal.
    simpl. rewrite length_app. simpl. lia. }
  exists (length cr0).
  split; [cbn [shape]; rewrite Hshape0, Hlen; reflexivity|].
  split.
  - cbn [data]. rewrite (length_concat_uniform (length cr0 + 4)).
    + rewrite length_map, Hlen. reflexivity.
    + apply Forall_lookup. intros j d Hj. rewrite list_lookup_fmap in Hj.
      destruct (ts !! j) as [tj|] eqn:Etj; [|discriminate]. injection Hj as <-.
      rewrite (Forall_lookup_1 _ _ _ _ Hwf Etj).
      rewrite (Forall_lookup_1 _ _ _ _ Hshape Etj), Hshape0.
      unfold numel. simpl. lia.
  - intros obj Hobj.
    destruct (proj1 (list_elem_of_lookup _ _) Hobj) as [i Hi].
    destruct (Hall i obj Hi)
      as (latent & osize & ow & oh & t1 & t2 & cr & drop
          & _ & _ & _ & _ & _ & _ & Hcr & _ & Hlook).
    exists cr. split; [exact Hcr|].
    pose proof (Forall_lookup_1 _ _ _ _ Hshape Hlook) as Hsi.
    cbv beta in Hsi. rewrite time_ids_entry_shape, Hshape0 in Hsi.
    injection Hsi as Hsi. simpl in Hsi. rewrite length_app in Hsi. simpl in Hsi. lia.
Qed.

(** C5. For every list of examples and every stream of draws in [0,1):
    with probability 0 a run of [collate_fn] leaves every caption as it
    was, sets the flag of every example of the batch to false and the flag
    of no example to true; with probability 1 it clears the caption of
    every example of the batch and sets its flag to true, and the
    conditioning tensor of the record it returns, which is present under
    the dual-embedding variant, is the tensor of zeros with one vector per
    example: its shape is (number of examples, 1, [k + 4]) where [k] is
    the length of the crop coordinates of every example, all its entries
    are zero, and the slice of each example is the zero vector of
    [k + 4] entries. *)
Theorem caption_dropout_at_zero_and_one
    (st : StateTracker) (sched : list nat) (examples : list nat) (w : world) :
  (forall n, (0 <= rng w n)%Q /\ (rng w n < 1)%Q) ->
  (let w' := snd (collate_fn (with_caption_dropout_probability (Some 0%Q) st)
                             sched [examples] w) in
   (forall obj, instance_prompt_text (heap w' obj) = instance_prompt_text (heap w obj)) /\
   (forall obj, obj ∈ examples -> drop_conditioning (heap w' obj) = Some false) /\
   (forall obj, obj ∉ examples ->
                drop_conditioning (heap w' obj) = drop_conditioning (heap w obj))) /\
  (let st1 := with_caption_dropout_probability (Some 1%Q) st in
   let w' := snd (collate_fn st1 sched [examples] w) in
   (forall obj, obj ∈ examples ->
      instance_prompt_text (heap w' obj) = "" /\
      drop_conditioning (heap w' obj) = Some true) /\
   (forall r,
      fst (collate_fn st1 sched [examples] w) = Ok r ->
      (model_type st = "sdxl" -> exists ids, batch_time_ids r = Some ids) /\
      (forall ids,
         batch_time_ids r = Some ids ->
         exists k,
           ids = {| shape := [length examples; 1; k + 4];
                    data := replicate (length examples * (k + 4)) 0%Q |} /\
           (forall obj, obj ∈ examples ->
              exists cr, crop_coordinates (heap w obj) = Some cr /\ length cr = k) /\
           (forall i, i < length examples ->
              tensor_getitem ids i =
              Ok {| shape := [1; k + 4]; data := replicate (k + 4) 0%Q |})))).
Proof.
  intros Hrng. split.
  - cbn zeta.
    destruct (collate_fn_heap (with_caption_dropout_probability (Some 0%Q) st)
                sched examples w) as [Hheap _].
    cbn [caption_dropout_probability with_caption_dropout_probability] in Hheap.
    rewrite Hheap.
    destruct (dropout_loop_never 0%Q examples eq_refl None
                (snd (debug_log "Begin collate_fn on batch" w)))
      as (Hcap & Hflag & Hother & _ & _).
    split; [|split].
    + intros obj. rewrite Hcap. reflexivity.
    + exact Hflag.
    + intros obj Hobj. rewrite (Hother obj Hobj). reflexivity.
  - cbn zeta.
    set (st1 := with_caption_dropout_probability (Some 1%Q) st).
    destruct (collate_fn_heap st1 sched examples w) as [Hheap Hids].
    cbn [st1 caption_dropout_probability with_caption_dropout_probability]
      in Hheap, Hids.
    set (w0 := snd (debug_log "Begin collate_fn on batch" w)) in *.
    destruct (dropout_loop_always 1%Q examples eq_refl None w0) as (Hin & _).
    { intros n. apply Qltb_lt. apply (Hrng n). }
    pose proof (dropout_loop_read_only (Some 1%Q) examples None w0) as Hframe.
    split.
    + intros obj Hobj. rewrite Hheap. apply Hin, Hobj.
    + intros r Hr. split.
      * intros Hsdxl.
        destruct (collate_fn_Ok _ _ _ _ _ Hr)
          as (backend & w2 & w3 & _ & _ & _ & Hemb & Hslots).
        apply compute_prompt_embeddings_Ok in Hemb.
        cbn [st1 model_type with_caption_dropout_probability] in Hemb.
        rewrite Hsdxl in Hemb. cbn [String.eqb Ascii.eqb Bool.eqb] in Hemb.
        destruct Hemb as (q & _ & Hq). rewrite Hq in Hslots. exact Hslots.
      * intros ids Hsome.
        destruct (Hids r ids Hr Hsome) as (w2 & Hheap2 & Hgather).
        assert (Hzero : Forall (fun x => x = 0%Q) (data ids)).
        { eapply gather_all_dropped_zero; [|exact Hgather].
          intros obj Hobj. rewrite Hheap2. apply Hin, Hobj. }
        destruct (gather_conditional_size_features_Ok _ _ _ _ _ Hgather)
          as (k & Hshape & Hlen & Hcrops).
        exists k.
        assert (Hids_eq : ids = {| shape := [length examples; 1; k + 4];
                                   data := replicate (length examples * (k + 4)) 0%Q |}).
        { destruct ids as [sh dt]. cbn [shape data] in *. subst sh.
          f_equal. rewrite <- Hlen. apply Forall_eq_replicate. exact Hzero. }
        split; [exact Hids_eq|]. split.
        -- intros obj Hobj. destruct (Hcrops obj Hobj) as (cr & Hcr & Hk).
           exists cr. split; [|exact Hk].
           rewrite Hheap2 in Hcr.
           destruct (Hframe obj) as (_ & _ & _ & Hcrop & _).
           rewrite Hcrop in Hcr. exact Hcr.
        -- intros i Hi. rewrite Hids_eq. apply tensor_getitem_zeros. exact Hi.
Qed.

Lemma caption_dropout_at_zero_and_one_witness :
  (forall n, (0 <= rng sample_world n)%Q /\ (rng sample_world n < 1)%Q) /\
  exists r ids,
    fst (collate_fn (with_caption_dropout_probability
                       (Some 1%Q) (sample_tracker None "sdxl"))
                    [2; 0; 1] [[0; 1; 2]] sample_world) = Ok r /\
    batch_time_ids r = Some ids /\
    exists k,
      ids = {| shape := [length [0; 1; 2]; 1; k + 4];
               data := replicate (length [0; 1; 2] * (k + 4)) 0%Q |} /\
      (forall obj, obj ∈ [0; 1; 2] ->
         exists cr, crop_coordinates (heap sample_world obj) = Some cr /\
                    length cr = k) /\
      (forall i, i < length [0; 1; 2] ->
         tensor_getitem ids i =
         Ok {| shape := [1; k + 4]; data := replicate (k + 4) 0%Q |}).
Proof.
  assert (Hrng : forall n, (0 <= rng sample_world n)%Q /\ (rng sample_world n < 1)%Q).
  { intros n. simpl. unfold Qle, Qlt. simpl. lia. }
  split; [exact Hrng|].
  eexists. eexists. split; [vm_compute; reflexivity|].
  split; [reflexivity|].
  refine (proj2 (proj2 (proj2 (caption_dropout_at_zero_and_one
                                 (sample_tracker None "sdxl") [2; 0; 1] [0; 1; 2]
                                 sample_world Hrng)) _ _) _ _).
  - vm_compute. reflexivity.
  - reflexivity.
Defined.
